(** * timecomp.py: reward functions and timing instrumentation

    A shallow embedding of [src/timecomp.py]: the two answer extractors,
    the two GRPO reward functions and the [TimingCallback] that wraps the
    trainer's methods, followed by the properties proved about them. *)

From Stdlib Require Import ZArith NArith Ascii String Floats Lia.
From stdpp Require Import base option list.

Set Default Proof Using "Type".
Open Scope nat_scope.

(** ** Python strings

    A Python [str] is a sequence of Unicode code points. *)

Module Py.

Definition char := N.
Definition str := list char.

Definition lit (s : string) : str :=
  map N_of_ascii (list_ascii_of_string s).

Definition newline : char := 10%N.

Definition char_eqb (a b : char) : bool := N.eqb a b.

(** [str.isspace] on one code point: the code points CPython's
    [_PyUnicode_IsWhitespace] accepts. *)
Definition isspace (c : char) : bool :=
  ((9 <=? c) && (c <=? 13) || (28 <=? c) && (c <=? 32) || (c =? 133)
   || (c =? 160) || (c =? 5760) || (8192 <=? c) && (c <=? 8202)
   || (c =? 8232) || (c =? 8233) || (c =? 8239) || (c =? 8287)
   || (c =? 12288))%N.

Fixpoint lstrip (s : str) : str :=
  match s with
  | c :: s' => if isspace c then lstrip s' else s
  | [] => []
  end.

Definition rstrip (s : str) : str := rev (lstrip (rev s)).

(** [s.strip()] *)
Definition strip (s : str) : str := rstrip (lstrip s).

Fixpoint str_eqb (a b : str) : bool :=
  match a, b with
  | [], [] => true
  | x :: a', y :: b' => char_eqb x y && str_eqb a' b'
  | _, _ => false
  end.

(** [s.startswith(p)] *)
Fixpoint starts_with (p s : str) : bool :=
  match p, s with
  | [], _ => true
  | x :: p', y :: s' => char_eqb x y && starts_with p' s'
  | _ :: _, [] => false
  end.

(** [s.find(p)]: the lowest index at which [p] occurs, [None] for -1. *)
Fixpoint find (p s : str) : option nat :=
  if starts_with p s then Some 0
  else match s with
       | [] => None
       | _ :: s' => S <$> find p s'
       end.

(** [s.split(sep)] for a non-empty separator: scan from the left, cut at
    each occurrence found and resume after it.  The counter bounds the
    number of cuts; a string of length [n] has at most [n] of them. *)
Fixpoint split_from (n : nat) (sep s : str) : list str :=
  match find sep s with
  | None => [s]
  | Some i =>
      match n with
      | 0 => [s]
      | S n' => take i s :: split_from n' sep (drop (i + length sep) s)
      end
  end.

Definition split (sep s : str) : list str := split_from (length s) sep s.

(** [sep.join(parts)] *)
Fixpoint join (sep : str) (parts : list str) : str :=
  match parts with
  | [] => []
  | [x] => x
  | x :: rest => x ++ sep ++ join sep rest
  end.

(** Decimal rendering of integers, as [str(n)] and [f"{n}"] give it. *)
Definition digit (d : nat) : char := (48 + N.of_nat d)%N.

Fixpoint digits_from (fuel n : nat) (acc : str) : str :=
  match fuel with
  | 0 => acc
  | S fuel' =>
      let acc' := digit (n mod 10) :: acc in
      if n / 10 =? 0 then acc' else digits_from fuel' (n / 10) acc'
  end.

Definition str_of_nat (n : nat) : str := digits_from (S n) n [].

Definition str_of_Z (z : Z) : str :=
  match z with
  | Zneg p => lit "-" ++ str_of_nat (Pos.to_nat p)
  | _ => str_of_nat (Z.to_nat z)
  end.

End Py.

Import Py.

(** ** Exceptions *)

Inductive exn :=
| IndexError
| ZeroDivisionError
| OtherError (name : string).

Inductive result (A : Type) :=
| Ok (a : A)
| Raise (e : exn).
Arguments Ok {A} a.
Arguments Raise {A} e.

(** [l[i]] for [i >= 0], and [l[-1]] *)
Definition index {A} (l : list A) (i : nat) : result A :=
  match l !! i with
  | Some a => Ok a
  | None => Raise IndexError
  end.

Definition index_last {A} (l : list A) : result A :=
  match last l with
  | Some a => Ok a
  | None => Raise IndexError
  end.

Definition rbind {A B} (r : result A) (k : A -> result B) : result B :=
  match r with
  | Ok a => k a
  | Raise e => Raise e
  end.

(** ** The answer extractors *)

Definition hash_sep : str := lit "####".
Definition answer_open : str := lit "<answer>".
Definition answer_close : str := lit "</answer>".
Definition reasoning_open : str := lit "<reasoning>".
Definition reasoning_close : str := lit "</reasoning>".

(** [extract_hash_answer]: the body of the [try], then the handler. *)
Definition extract_hash_answer_try (text : str) : result str :=
  rbind (index (split hash_sep text) 1) (fun piece => Ok (strip piece)).

Definition extract_hash_answer (text : str) : option str :=
  match extract_hash_answer_try text with
  | Ok a => Some a
  | Raise _ => None
  end.

(** [extract_xml_answer]: the body of the [try], then the handler. *)
Definition extract_xml_answer_try (text : str) : result str :=
  rbind (index_last (split answer_open text)) (fun tail =>
  rbind (index (split answer_close tail) 0) (fun piece =>
  Ok (strip piece))).

Definition extract_xml_answer (text : str) : str :=
  match extract_xml_answer_try text with
  | Ok answer => answer
  | Raise _ => []
  end.

(** ** Regular expressions

    The fragment of Python's [re] syntax the format pattern is written in,
    matched the way [re] matches it: by backtracking, with the
    continuation [k] standing for the rest of the pattern.  No flag is
    set: [.] refuses a newline, [^] holds at position 0 only and [$] holds
    at the end of the string and just before a final newline. *)

Module Re.

Inductive regex :=
| Chr (c : char)               (* a literal character *)
| Any                          (* [.] *)
| Bol                          (* [^] *)
| Eol                          (* [$] *)
| NotAhead (r : regex)         (* [(?!r)] *)
| Cat (r1 r2 : regex)          (* [r1 r2] *)
| Star (r : regex)             (* [(?:r)*], greedy *)
| Empty.

(** A string of literal characters. *)
Fixpoint lits (p : str) : regex :=
  match p with
  | [] => Empty
  | c :: p' => Cat (Chr c) (lits p')
  end.

(** A greedy repetition: up to [n] rounds of [body], each followed by
    further rounds, with the rest of the pattern [k] as the fallback.  A
    round that consumes nothing is not repeated. *)
Fixpoint rounds (body : nat -> str -> (nat -> str -> bool) -> bool)
    (k : nat -> str -> bool) (n : nat) (pos : nat) (s : str) : bool :=
  match n with
  | 0 => k pos s
  | S n' =>
      body pos s (fun pos' s' =>
        if length s' <? length s then rounds body k n' pos' s' else false)
      || k pos s
  end.

(** [exec r pos s k]: match [r] against [s], the part of the subject that
    starts at offset [pos], and hand what is left to [k]. *)
Fixpoint exec (r : regex) (pos : nat) (s : str) (k : nat -> str -> bool) : bool :=
  match r with
  | Chr c =>
      match s with
      | x :: s' => if char_eqb x c then k (S pos) s' else false
      | [] => false
      end
  | Any =>
      match s with
      | x :: s' => if char_eqb x newline then false else k (S pos) s'
      | [] => false
      end
  | Bol => if pos =? 0 then k pos s else false
  | Eol =>
      match s with
      | [] => k pos s
      | [x] => if char_eqb x newline then k pos s else false
      | _ => false
      end
  | NotAhead r' => if exec r' pos s (fun _ _ => true) then false else k pos s
  | Cat r1 r2 => exec r1 pos s (fun pos' s' => exec r2 pos' s' k)
  | Star r' => rounds (exec r') k (length s) pos s
  | Empty => k pos s
  end.

(** [bool(re.match(r, s))] *)
Definition matches (r : regex) (s : str) : bool :=
  exec r 0 s (fun _ _ => true).

End Re.

Import Re.

(** The pattern of [format_reward_func]:
    [^<reasoning>(?:(?!</reasoning>).)*</reasoning>\n<answer>(?:(?!</answer>).)*</answer>$] *)
Definition pattern : regex :=
  Cat Bol
 (Cat (lits reasoning_open)
 (Cat (Star (Cat (NotAhead (lits reasoning_close)) Any))
 (Cat (lits reasoning_close)
 (Cat (Chr newline)
 (Cat (lits answer_open)
 (Cat (Star (Cat (NotAhead (lits answer_close)) Any))
 (Cat (lits answer_close)
  Eol))))))).

(** ** Messages, the callback object and the world *)

(** A chat message, the dict [{'role': ..., 'content': ...}]. *)
Record message := { role : str; content : str }.

(** What one [print] call writes: text, and floats shown with [:.2f]. *)
Inductive piece :=
| Txt (s : str)
| Fixed2 (x : float).

Definition line := list piece.

(** The fields of the [TimingCallback] instance. *)
Record TimingCallback := {
  generation_start_time : option float;
  backprop_start_time : option float;
  step_count : Z
}.

(** [TimingCallback.__init__] *)
Definition TimingCallback_init : TimingCallback :=
  {| generation_start_time := None; backprop_start_time := None; step_count := 0 |}.

Record TrainingArguments := { gradient_accumulation_steps : Z }.
Record TrainerState := { global_step : Z }.

Section Runtime.

(** The state of the external trainer (model, optimizer, batches). *)
Context {E : Type}.

(** Everything a call can read or change: the trainer's own state, the
    one [TimingCallback] that [main] creates and the closures of
    [patch_trainer] capture, what has been printed, and the clock, as the
    sequence of values successive [time.time()] calls return. *)
Record world := {
  ext : E;
  callback : TimingCallback;
  stdout : list line;
  clock : nat -> float;
  reads : nat
}.

Definition M (A : Type) : Type := world -> result A * world.

Definition ret {A} (a : A) : M A := fun w => (Ok a, w).

Definition bind {A B} (m : M A) (k : A -> M B) : M B :=
  fun w =>
    match m w with
    | (Ok a, w') => k a w'
    | (Raise e, w') => (Raise e, w')
    end.

Definition lift {A} (r : result A) : M A := fun w => (r, w).

(** [print(l)] *)
Definition print (l : line) : M unit :=
  fun w =>
    (Ok tt, {| ext := ext w; callback := callback w; stdout := stdout w ++ [l];
               clock := clock w; reads := reads w |}).

(** [time.time()] *)
Definition time_time : M float :=
  fun w =>
    (Ok (clock w (reads w)),
     {| ext := ext w; callback := callback w; stdout := stdout w;
        clock := clock w; reads := S (reads w) |}).

Definition get_callback : M TimingCallback := fun w => (Ok (callback w), w).

Definition set_callback (c : TimingCallback) : M unit :=
  fun w =>
    (Ok tt, {| ext := ext w; callback := c; stdout := stdout w;
               clock := clock w; reads := reads w |}).

(** [self.generation_start_time = v] and its siblings *)
Definition set_generation_start_time (v : option float) : M unit :=
  fun w =>
    set_callback {| generation_start_time := v;
                    backprop_start_time := backprop_start_time (callback w);
                    step_count := step_count (callback w) |} w.

Definition set_backprop_start_time (v : option float) : M unit :=
  fun w =>
    set_callback {| generation_start_time := generation_start_time (callback w);
                    backprop_start_time := v;
                    step_count := step_count (callback w) |} w.

Definition set_step_count (v : Z) : M unit :=
  fun w =>
    set_callback {| generation_start_time := generation_start_time (callback w);
                    backprop_start_time := backprop_start_time (callback w);
                    step_count := v |} w.

End Runtime.

Arguments world : clear implicits.
Arguments M : clear implicits.

Notation "x <- m ;; k" := (bind m (fun x => k))
  (at level 100, m at next level, right associativity).
Notation "m ;;; k" := (bind m (fun _ => k))
  (at level 100, right associativity).

(** ** The reward functions *)

(** [completion[0]['content']] *)
Definition first_content (completion : list message) : result str :=
  rbind (index completion 0) (fun m => Ok (content m)).

(** A list comprehension whose element expression may raise. *)
Fixpoint map_result {A B} (f : A -> result B) (l : list A) : result (list B) :=
  match l with
  | [] => Ok []
  | x :: l' =>
      rbind (f x) (fun y =>
      rbind (map_result f l') (fun ys => Ok (y :: ys)))
  end.

(** [r == a] for a string [r] and a ground truth [a], which is a string
    or [None]. *)
Definition py_eq (r : str) (a : option str) : bool :=
  match a with
  | Some s => str_eqb r s
  | None => false
  end.

(** [f"{a}"] for such a ground truth *)
Definition format_answer (a : option str) : str :=
  match a with
  | Some s => s
  | None => lit "None"
  end.

Definition nl : str := [newline].

Section Rewards.

Context {E : Type}.

Definition format_reward_func (completions : list (list message))
  : M E (list float) :=
  responses <- lift (map_result first_content completions) ;;
  let matches := map (Re.matches pattern) responses in
  ret (map (fun m : bool => if m then 1%float else 0%float) matches).

(** The text [correctness_reward_func] prints. *)
Definition report (question : str) (a0 : option str) (n : nat)
    (r0 e0 : str) (marks : list str) : str :=
  nl ++ nl ++ replicate 63 61%N ++ nl
  ++ lit "User Question:" ++ nl ++ question
  ++ nl ++ nl ++ lit "Correct Answer:" ++ nl ++ format_answer a0 ++ nl
  ++ nl ++ replicate 63 45%N ++ nl
  ++ nl ++ nl ++ lit "1st/" ++ str_of_nat n ++ lit " generated responses:" ++ nl ++ r0
  ++ nl ++ nl ++ lit "Extracted: " ++ e0
  ++ nl ++ nl ++ lit "Correctness of all " ++ str_of_nat n ++ lit " responses: "
  ++ join [] marks.

Definition correctness_reward_func (prompts : list (list message))
    (completions : list (list message)) (answer : list (option str))
  : M E (list float) :=
  responses <- lift (map_result first_content completions) ;;
  let extracted_responses := map extract_xml_answer responses in
  question <- lift (rbind (index prompts 0) (fun p =>
                    rbind (index_last p) (fun m => Ok (content m)))) ;;
  a0 <- lift (index answer 0) ;;
  r0 <- lift (index responses 0) ;;
  e0 <- lift (index extracted_responses 0) ;;
  print [Txt (report question a0 (length completions) r0 e0
               (map (fun ra => if py_eq ra.1 ra.2 then lit "Y" else lit "N")
                    (zip extracted_responses answer)))] ;;;
  ret (map (fun ra => if py_eq ra.1 ra.2 then 2%float else 0%float)
           (zip extracted_responses answer)).

End Rewards.

(** ** The timing callback and the patched trainer *)

(** [a % b] on Python integers *)
Definition py_mod (a b : Z) : result Z :=
  if (b =? 0)%Z then Raise ZeroDivisionError else Ok (a mod b)%Z.

Section Timing.

Context {E args value : Type}.

Definition on_step_begin (targs : TrainingArguments) (state : TrainerState)
  : M E unit :=
  m <- lift (py_mod (global_step state) (gradient_accumulation_steps targs)) ;;
  if (m =? 0)%Z then
    t <- time_time ;;
    set_generation_start_time (Some t) ;;;
    print [Txt (nl ++ lit "[Timing] Step " ++ str_of_Z (global_step state)
                ++ lit " - Starting generation phase")]
  else ret tt.

Definition on_step_end (targs : TrainingArguments) (state : TrainerState)
  : M E unit :=
  m <- lift (py_mod (global_step state) (gradient_accumulation_steps targs)) ;;
  if (m =? 0)%Z then
    self <- get_callback ;;
    match backprop_start_time self with
    | Some t0 =>
        t <- time_time ;;
        print [Txt (lit "[Timing] Step " ++ str_of_Z (global_step state)
                    ++ lit " - Backpropagation completed in ");
               Fixed2 (t - t0)%float; Txt (lit " seconds")]
    | None => ret tt
    end ;;;
    self <- get_callback ;;
    set_step_count (step_count self + 1)%Z
  else ret tt.

(** A method of the trainer: it takes the call's arguments and may do
    anything to the world, whatever it calls on the way. *)
Definition method : Type := args -> M E value.

Record GRPOTrainer := {
  _generate_and_score_completions : method;
  compute_loss : method;
  training_step : method
}.

Definition wrapped_generate_and_score (original_generate : method) : method :=
  fun a =>
    result <- original_generate a ;;
    self <- get_callback ;;
    match generation_start_time self with
    | Some t0 =>
        t <- time_time ;;
        print [Txt (lit "[Timing] Generation phase completed in ");
               Fixed2 (t - t0)%float; Txt (lit " seconds")] ;;;
        t' <- time_time ;;
        set_backprop_start_time (Some t') ;;;
        print [Txt (lit "[Timing] Starting backpropagation phase")] ;;;
        set_generation_start_time None ;;;
        ret result
    | None => ret result
    end.

Definition wrapped_compute_loss (original_compute_loss : method) : method :=
  fun a =>
    start_time <- time_time ;;
    result <- original_compute_loss a ;;
    t <- time_time ;;
    print [Txt (lit "[Timing] Loss computation took ");
           Fixed2 (t - start_time)%float; Txt (lit " seconds")] ;;;
    ret result.

(** [TimingCallback.patch_trainer]: the two attributes it assigns. *)
Definition patch_trainer (trainer : GRPOTrainer) : GRPOTrainer :=
  let original_generate := _generate_and_score_completions trainer in
  let original_compute_loss := compute_loss trainer in
  {| _generate_and_score_completions := wrapped_generate_and_score original_generate;
     compute_loss := wrapped_compute_loss original_compute_loss;
     training_step := training_step trainer |}.

Definition patched_training_step (original_training_step : method) : method :=
  fun a =>
    step_start_time <- time_time ;;
    loss <- original_training_step a ;;
    t <- time_time ;;
    print [Txt (lit "[Timing] Complete training step took ");
           Fixed2 (t - step_start_time)%float; Txt (lit " seconds")] ;;;
    ret loss.

(** The trainer [main] trains with: patched by the callback, then given
    the timed [training_step]. *)
Definition main_trainer (trainer : GRPOTrainer) : GRPOTrainer :=
  let trainer := patch_trainer trainer in
  let original_training_step := training_step trainer in
  {| _generate_and_score_completions := _generate_and_score_completions trainer;
     compute_loss := compute_loss trainer;
     training_step := patched_training_step original_training_step |}.

End Timing.

(** ** Dataset preprocessing *)

Definition R1_STYLE_SYSTEM_PROMPT : str :=
  lit "A conversation between User and Assistant. The user asks a question, and the Assistant solves it."
  ++ nl ++
  lit "The assistant first thinks about the reasoning process in the mind and then provides the user"
  ++ nl ++
  lit "with the answer. The reasoning process and answer are enclosed within <reasoning> </reasoning> and"
  ++ nl ++
  lit "<answer> </answer> tags, respectively, i.e., <reasoning> reasoning process here </reasoning>"
  ++ nl ++
  lit "<answer> answer here </answer>.".

Definition TASK_SPECIFIC_INSTRUCTIONS : str :=
  lit "The answer must be a single integer.".

(** The batch [process_batch] receives, with its two columns, and the
    dict it returns. *)
Module Batch.
Record t := { question : list str; answer : list str }.
End Batch.

Module Processed.
Record t := { prompt : list (list message); answer : list (option str) }.
End Processed.

(** The worked example every prompt shows the model. *)
Definition example_turn : str :=
  lit "<reasoning>To calculate 2+2, we simply add the numbers together: 2 + 2 = 4.</reasoning>"
  ++ nl ++ lit "<answer>4</answer>".

(** [process_batch], the function [preprocess_dataset] maps over the
    dataset. *)
Definition process_batch (batch : Batch.t) : Processed.t :=
  let prompts :=
    map (fun q =>
           [ {| role := lit "system";
                content := R1_STYLE_SYSTEM_PROMPT ++ nl ++ TASK_SPECIFIC_INSTRUCTIONS |};
             {| role := lit "user"; content := lit "What is 2+2?" |};
             {| role := lit "assistant"; content := example_turn |};
             {| role := lit "user"; content := strip q |} ])
        (Batch.question batch) in
  {| Processed.prompt := prompts;
     Processed.answer := map extract_hash_answer (Batch.answer batch) |}.

(** ** The lines the instrumentation prints *)



Definition backprop_line (step : Z) (elapsed : float) : line :=
  [Txt (lit "[Timing] Step " ++ str_of_Z step
        ++ lit " - Backpropagation completed in ");
   Fixed2 elapsed; Txt (lit " seconds")].

(** ** Numbers and failures for the examples *)

(** The integer a string of decimal digits denotes, leading zeros
    allowed: what an answer is worth as a number. *)
Definition digit_value (c : char) : option Z :=
  if ((48 <=? c) && (c <=? 57))%N then Some (Z.of_N c - 48)%Z else None.

Fixpoint decimal_from (acc : Z) (s : str) : option Z :=
  match s with
  | [] => Some acc
  | c :: s' =>
      match digit_value c with
      | Some d => decimal_from (10 * acc + d)%Z s'
      | None => None
      end
  end.

Definition numeric_value (s : str) : option Z :=
  match s with
  | [] => None
  | _ => decimal_from 0%Z s
  end.


(** ** Vocabulary of the properties *)

(** [p] occurs in [s] at index [i]; [p] occurs in [s]. *)
Definition occurs_at (p s : str) (i : nat) : Prop :=
  exists a b, s = a ++ p ++ b /\ length a = i.

Definition contains (p s : str) : Prop :=
  exists a b, s = a ++ p ++ b.

(** The first occurrence of [sep] cuts [s] into [a] and [rest]. *)
Definition first_cut (sep s a rest : str) : Prop :=
  s = a ++ sep ++ rest /\ forall j, occurs_at sep s j -> length a <= j.

(** [b] is [rest] up to its first [sep], or all of it when it has none. *)
Definition up_to_next (sep rest b : str) : Prop :=
  (~ contains sep rest /\ b = rest) \/ (exists c, first_cut sep rest b c).

(** A tag that opens with [c] and has no other [c]: two such tags never
    overlap in a string unless they start at the same place. *)
Definition headed (c : char) (p : str) : Prop :=
  exists t, p = c :: t /\ c ∉ t.

Definition lt_sign : char := 60%N.

(** What a regular expression denotes: [sem r pos s pos' s'] says that
    [r] can match from offset [pos], where [s] is left of the subject, up
    to offset [pos'], where [s'] is left. *)
Inductive iter (step : nat -> str -> nat -> str -> Prop)
  : nat -> str -> nat -> str -> Prop :=
| iter_done pos s : iter step pos s pos s
| iter_more pos s pos1 s1 pos2 s2 :
    step pos s pos1 s1 -> length s1 < length s ->
    iter step pos1 s1 pos2 s2 -> iter step pos s pos2 s2.

Fixpoint sem (r : regex) (pos : nat) (s : str) (pos' : nat) (s' : str) : Prop :=
  match r with
  | Chr c => s = c :: s' /\ pos' = S pos
  | Any => (exists x, s = x :: s' /\ x <> newline) /\ pos' = S pos
  | Bol => pos = 0 /\ pos' = pos /\ s' = s
  | Eol => (s = [] \/ s = [newline]) /\ pos' = pos /\ s' = s
  | NotAhead r' => ~ (exists p1 s1, sem r' pos s p1 s1) /\ pos' = pos /\ s' = s
  | Cat r1 r2 => exists p1 s1, sem r1 pos s p1 s1 /\ sem r2 p1 s1 pos' s'
  | Star r' => iter (sem r') pos s pos' s'
  | Empty => pos' = pos /\ s' = s
  end.

(** [R] is a run of the guarded dot [(?:(?!p).)*] in front of [rest]: no
    newline in it, and [p] starts at none of its positions. *)
Definition dot_run (p R rest : str) : Prop :=
  (newline ∉ R) /\ forall j, j < length R -> starts_with p (drop j (R ++ rest)) = false.

(** The completion the system prompt asks for, with reasoning [R] and
    answer [A]. *)
Definition tagged (R A : str) : str :=
  reasoning_open ++ R ++ reasoning_close ++ nl ++ answer_open ++ A ++ answer_close.

(** The format as the pattern accepts it: neither text has a newline or
    its own closing tag, and one newline may follow the whole. *)
Definition accepted (text : str) : Prop :=
  exists R A,
    (newline ∉ R) /\ (newline ∉ A) /\
    ~ contains reasoning_close R /\ ~ contains answer_close A /\
    (text = tagged R A \/ text = tagged R A ++ nl).

(** The format in its plainest reading: the whole text is a tagged
    completion whose texts lack their own closing tags. *)
Definition plain_format (text : str) : Prop :=
  exists R A,
    ~ contains reasoning_close R /\ ~ contains answer_close A /\
    text = tagged R A.


(** The score of one completion text under each reward function. *)
Definition format_score (text : str) : float :=
  if matches pattern text then 1%float else 0%float.

Definition correctness_score (text : str) (a : option str) : float :=
  if py_eq (extract_xml_answer text) a then 2%float else 0%float.

(** The inputs on which [correctness_reward_func] gets past its
    comprehensions and its report: every completion has a first message,
    and the first prompt, the completions and the answers have a first or
    last element to show. *)
Definition reportable (prompts completions : list (list message))
    (answer : list (option str)) : Prop :=
  Forall (fun completion => completion <> []) completions /\
  (exists prompt, prompts !! 0 = Some prompt /\ prompt <> []) /\
  completions <> [] /\ answer <> [].

(** What [correctness_reward_func] computes, apart from printing it. *)
Definition correctness_outcome (prompts completions : list (list message))
    (answer : list (option str)) : result (line * list float) :=
  rbind (map_result first_content completions) (fun responses =>
  let extracted_responses := map extract_xml_answer responses in
  rbind (rbind (index prompts 0) (fun p =>
         rbind (index_last p) (fun m => Ok (content m)))) (fun question =>
  rbind (index answer 0) (fun a0 =>
  rbind (index responses 0) (fun r0 =>
  rbind (index extracted_responses 0) (fun e0 =>
  Ok ([Txt (report question a0 (length completions) r0 e0
             (map (fun ra => if py_eq ra.1 ra.2 then lit "Y" else lit "N")
                  (zip extracted_responses answer)))],
      map (fun ra => if py_eq ra.1 ra.2 then 2%float else 0%float)
          (zip extracted_responses answer))))))).

(** Two worlds that differ at most in what the instrumentation owns: the
    callback's two timestamps, the printed lines and how often the clock
    has been read. *)
Definition timing_only {E} (w1 w2 : world E) : Prop :=
  ext w1 = ext w2 /\ clock w1 = clock w2 /\
  step_count (callback w1) = step_count (callback w2).

(** What the wrapped [_generate_and_score_completions] adds to the world
    when a generation measurement that began at [t0] is in progress. *)
Definition generation_measured {E} (t0 : float) (w : world E) : world E :=
  {| ext := ext w;
     callback := {| generation_start_time := None;
                    backprop_start_time := Some (clock w (S (reads w)));
                    step_count := step_count (callback w) |};
     stdout := stdout w
       ++ [[Txt (lit "[Timing] Generation phase completed in ");
            Fixed2 (clock w (reads w) - t0)%float; Txt (lit " seconds")]]
       ++ [[Txt (lit "[Timing] Starting backpropagation phase")]];
     clock := clock w;
     reads := S (S (reads w)) |}.

(** A world to run examples in: a fresh callback, nothing printed, a
    clock that starts at 100.0 and advances by half a second per reading. *)
Fixpoint example_clock (n : nat) : float :=
  match n with
  | 0 => 100%float
  | S n' => (example_clock n' + 0.5)%float
  end.

Definition example_world : world unit :=
  {| ext := tt; callback := TimingCallback_init; stdout := [];
     clock := example_clock; reads := 0 |}.

(** A trainer method that returns its argument and touches nothing, and
    a step at which the callback records a timestamp. *)
Definition echo : @method unit nat nat := fun a => ret a.

(** A generation that fails, as the trainer's does when memory runs out. *)
Definition failing_generate : @method unit nat nat :=
  fun _ w => (Raise (OtherError "OutOfMemoryError"), w).

Definition begun_world : world unit :=
  (on_step_begin {| gradient_accumulation_steps := 4 |} {| global_step := 8 |}
     example_world).2.

Definition assistant (text : str) : message :=
  {| role := lit "assistant"; content := text |}.

Definition user (text : str) : message :=
  {| role := lit "user"; content := text |}.

Definition example_prompts : list (list message) :=
  [[user (lit "What is 2+2?")]; [user (lit "What is 2+2?")]].

Definition example_completions : list (list message) :=
  [[assistant (tagged (lit "2+2 is 4") (lit "4"))];
   [assistant (lit "<answer>5</answer>")]].

Definition example_answer : list (option str) :=
  [Some (lit "4"); Some (lit "4")].

(** * Properties *)

(** ** Strings *)

Lemma char_eqb_eq (a b : char) : char_eqb a b = true <-> a = b.
Proof. apply N.eqb_eq. Qed.

Lemma char_eqb_refl (a : char) : char_eqb a a = true.
Proof. apply N.eqb_refl. Qed.

Lemma str_eqb_eq (a b : str) : str_eqb a b = true <-> a = b.
Proof.
  revert b. induction a as [|x a IH]; intros [|y b]; simpl; try (split; congruence).
  rewrite andb_true_iff, char_eqb_eq, IH. split.
  - intros [-> ->]. reflexivity.
  - intros [= -> ->]. auto.
Qed.

Lemma starts_with_iff (p s : str) :
  starts_with p s = true <-> exists b, s = p ++ b.
Proof.
  revert s. induction p as [|x p IH]; intros s; simpl.
  - split; eauto.
  - destruct s as [|y s].
    + split; [discriminate | intros [b [=]]].
    + rewrite andb_true_iff, char_eqb_eq, IH. split.
      * intros [-> [b ->]]. eauto.
      * intros [b [= -> ->]]. eauto.
Qed.

Lemma starts_with_app (p b : str) : starts_with p (p ++ b) = true.
Proof. apply starts_with_iff. eauto. Qed.

Lemma occurs_at_0 (p s : str) : occurs_at p s 0 <-> starts_with p s = true.
Proof.
  rewrite starts_with_iff. split.
  - intros ([|] & b & -> & Hl); [eauto | discriminate].
  - intros [b ->]. exists [], b. auto.
Qed.

Lemma occurs_at_S (p : str) (c : char) (s : str) (i : nat) :
  occurs_at p (c :: s) (S i) <-> occurs_at p s i.
Proof.
  split.
  - intros ([|x a] & b & Heq & Hl); [discriminate|].
    simpl in Heq, Hl. injection Heq as -> ->. exists a, b. split; [reflexivity | lia].
  - intros (a & b & -> & Hl). exists (c :: a), b. simpl. split; [reflexivity | lia].
Qed.

Lemma contains_occurs (p s : str) : contains p s <-> exists i, occurs_at p s i.
Proof.
  split.
  - intros (a & b & ->). exists (length a), a, b. auto.
  - intros (i & a & b & -> & _). exists a, b. reflexivity.
Qed.

Lemma occurs_at_bound (p s : str) (i : nat) :
  occurs_at p s i -> i + length p <= length s.
Proof. intros (a & b & -> & <-). rewrite !length_app. lia. Qed.

(** [find] returns the lowest index of an occurrence. *)
Lemma find_spec (p s : str) :
  match find p s with
  | Some i => occurs_at p s i /\ forall j, occurs_at p s j -> i <= j
  | None => forall j, ~ occurs_at p s j
  end.
Proof.
  induction s as [|c s IH]; simpl.
  - destruct (starts_with p []) eqn:Hp.
    + split; [by apply occurs_at_0 | lia].
    + intros j Hj. apply occurs_at_bound in Hj as Hb. simpl in Hb.
      assert (j = 0) as -> by lia. apply occurs_at_0 in Hj. congruence.
  - destruct (starts_with p (c :: s)) eqn:Hp.
    + split; [by apply occurs_at_0 | lia].
    + destruct (find p s) as [k|]; simpl.
      * destruct IH as [Hk Hmin]. split; [by apply occurs_at_S|].
        intros [|j] Hj; [apply occurs_at_0 in Hj; congruence|].
        apply occurs_at_S, Hmin in Hj. lia.
      * intros [|j] Hj; [apply occurs_at_0 in Hj; congruence|].
        apply occurs_at_S in Hj. by apply IH in Hj.
Qed.

Lemma find_Some (p s : str) (i : nat) :
  find p s = Some i <-> occurs_at p s i /\ forall j, occurs_at p s j -> i <= j.
Proof.
  pose proof (find_spec p s) as H. destruct (find p s) as [k|].
  - destruct H as [Hk Hmin]. split.
    + intros [= <-]. auto.
    + intros [Hi Hmin']. apply Hmin in Hi. apply Hmin' in Hk. f_equal. lia.
  - split; [discriminate|]. intros [Hi _]. by apply H in Hi.
Qed.

Lemma find_None (p s : str) : find p s = None <-> ~ contains p s.
Proof.
  rewrite contains_occurs. pose proof (find_spec p s) as H.
  destruct (find p s) as [k|].
  - split; [discriminate|]. intros Hno. exfalso. apply Hno. exists k. apply H.
  - split; [|reflexivity]. intros _ [j Hj]. by apply H in Hj.
Qed.

Lemma occurs_at_cut (p s : str) (i : nat) :
  occurs_at p s i -> s = take i s ++ p ++ drop (i + length p) s.
Proof.
  intros (a & b & -> & <-).
  rewrite take_app_length, drop_app_add, drop_app_length. reflexivity.
Qed.

Lemma contains_left (a p b x r : str) :
  a ++ p ++ b = x ++ r -> length a + length p <= length x -> contains p x.
Proof.
  intros Heq Hle.
  assert (x = take (length x) (a ++ p ++ b)) as Hx
    by (rewrite Heq, take_app_length; reflexivity).
  rewrite take_app_ge, take_app_ge in Hx by lia.
  rewrite Hx. eexists _, _. reflexivity.
Qed.

Lemma contains_right (a p b x r : str) :
  a ++ p ++ b = x ++ r -> length x <= length a -> contains p r.
Proof.
  intros Heq Hle.
  assert (r = drop (length x) (a ++ p ++ b)) as Hr
    by (rewrite Heq, drop_app_length; reflexivity).
  rewrite drop_app_le in Hr by lia.
  rewrite Hr. eexists _, _. reflexivity.
Qed.

(** *** [split] *)

Lemma find_Some_length (sep s : str) (i : nat) :
  find sep s = Some i -> i + length sep <= length s.
Proof. intros [H _]%find_Some. by apply occurs_at_bound. Qed.

Lemma split_from_fuel (sep : str) (n m : nat) (s : str) :
  sep <> [] -> length s <= n -> length s <= m ->
  split_from n sep s = split_from m sep s.
Proof.
  intros Hsep. revert m s. induction n as [|n IH]; intros m s Hn Hm.
  - destruct s; [|simpl in Hn; lia].
    destruct sep; [congruence|]. by destruct m.
  - simpl. destruct (find sep s) as [i|] eqn:Hf.
    + apply find_Some_length in Hf as Hlen.
      assert (0 < length sep) by (destruct sep; [congruence | simpl; lia]).
      destruct m as [|m]; [lia|]. simpl. rewrite Hf. f_equal.
      apply IH; rewrite length_drop; lia.
    + destruct m; simpl; by rewrite Hf.
Qed.

Lemma split_unfold (sep s : str) :
  sep <> [] ->
  split sep s =
    match find sep s with
    | None => [s]
    | Some i => take i s :: split sep (drop (i + length sep) s)
    end.
Proof.
  intros Hsep. unfold split.
  destruct (find sep s) as [i|] eqn:Hf.
  - apply find_Some_length in Hf as Hlen.
    assert (0 < length sep) by (destruct sep; [congruence | simpl; lia]).
    destruct (length s) as [|n] eqn:Hn; [lia|]. simpl. rewrite Hf. f_equal.
    apply split_from_fuel; [assumption | rewrite length_drop; lia | lia].
  - destruct (length s); simpl; by rewrite Hf.
Qed.

Lemma split_from_nonempty (n : nat) (sep s : str) : split_from n sep s <> [].
Proof. destruct n; simpl; destruct (find sep s); try destruct n; discriminate. Qed.

Lemma split_nonempty (sep s : str) : split sep s <> [].
Proof. apply split_from_nonempty. Qed.

Lemma split_without (sep s : str) : ~ contains sep s -> split sep s = [s].
Proof.
  intros H%find_None. unfold split. destruct (length s); simpl; by rewrite H.
Qed.

(** *** Tags that cannot overlap *)

Lemma headed_nonempty (c : char) (p : str) : headed c p -> p <> [].
Proof. intros (t & -> & _). discriminate. Qed.

Lemma headed_lookup_head (c : char) (p pre post : str) :
  headed c p -> (pre ++ p ++ post) !! length pre = Some c.
Proof. intros (t & -> & _). by apply list_lookup_middle. Qed.

Lemma headed_lookup_tail (c : char) (p pre post : str) (k : nat) :
  headed c p -> 0 < k < length p ->
  (pre ++ p ++ post) !! (length pre + k) <> Some c.
Proof.
  intros (t & -> & Hnot) Hk Hl. simpl in Hk.
  rewrite lookup_app_r in Hl by lia.
  replace (length pre + k - length pre) with k in Hl by lia.
  rewrite lookup_app_l in Hl by (simpl; lia).
  destruct k as [|k]; [lia|]. simpl in Hl.
  by apply list_elem_of_lookup_2 in Hl.
Qed.

(** Two occurrences of tags headed by the same character are disjoint or
    start together. *)
Lemma headed_overlap (c : char) (p q a b x z : str) :
  headed c p -> headed c q -> a ++ p ++ b = x ++ q ++ z ->
  length a + length p <= length x \/ length a = length x \/
  length x + length q <= length a.
Proof.
  intros Hp Hq Heq.
  destruct (Nat.lt_total (length a) (length x)) as [Hlt|[?|Hlt]]; [|by auto|].
  - destruct (Nat.le_gt_cases (length a + length p) (length x)); [by auto|].
    exfalso. apply (headed_lookup_tail c p a b (length x - length a) Hp); [lia|].
    replace (length a + (length x - length a)) with (length x) by lia.
    rewrite Heq. by apply headed_lookup_head.
  - destruct (Nat.le_gt_cases (length x + length q) (length a)); [by auto|].
    exfalso. apply (headed_lookup_tail c q x z (length a - length x) Hq); [lia|].
    replace (length x + (length a - length x)) with (length a) by lia.
    rewrite <- Heq. by apply headed_lookup_head.
Qed.

(** Before a headed tag that closes a text without that tag, the tag
    occurs nowhere earlier. *)
Lemma headed_first (c : char) (p x z : str) (j : nat) :
  headed c p -> ~ contains p x -> occurs_at p (x ++ p ++ z) j -> length x <= j.
Proof.
  intros Hp Hx (a & b & Heq & <-). symmetry in Heq.
  destruct (headed_overlap c p p a b x z Hp Hp Heq) as [H|[H|H]]; [|lia|lia].
  exfalso. apply Hx. by eapply contains_left.
Qed.

Lemma find_headed (c : char) (p x z : str) :
  headed c p -> ~ contains p x -> find p (x ++ p ++ z) = Some (length x).
Proof.
  intros Hp Hx. apply find_Some. split.
  - by exists x, z.
  - intros j Hj. by eapply headed_first.
Qed.

Lemma find_first_cut (sep s : str) (i : nat) :
  find sep s = Some i -> first_cut sep s (take i s) (drop (i + length sep) s).
Proof.
  intros [Hocc Hmin]%find_Some. split; [by apply occurs_at_cut|].
  intros j Hj. apply Hmin in Hj. rewrite length_take. lia.
Qed.

(** With a headed separator, the last piece of a split is what follows
    the last occurrence. *)
Lemma split_last_headed (c : char) (sep x y : str) :
  headed c sep -> ~ contains sep y -> last (split sep (x ++ sep ++ y)) = Some y.
Proof.
  intros Hsep Hy. pose proof (headed_nonempty _ _ Hsep) as Hne.
  assert (0 < length sep) by (destruct sep; [congruence | simpl; lia]).
  induction x as [x IH] using (induction_ltof1 _ (@length char)). unfold ltof in IH.
  rewrite split_unfold by assumption.
  destruct (find sep (x ++ sep ++ y)) as [i|] eqn:Hf.
  - apply find_Some in Hf as [Hocc Hmin].
    assert (i <= length x) by (apply Hmin; by exists x, y).
    destruct Hocc as (a & b & Heq & Hi). symmetry in Heq.
    destruct (headed_overlap c sep sep a b x y Hsep Hsep Heq) as [Hin|[Hat|Hout]]; [| |lia].
    + rewrite drop_app_le by lia. rewrite last_cons, IH; [reflexivity|].
      rewrite length_drop. lia.
    + rewrite <- Hi, Hat, drop_app_add, drop_app_length.
      by rewrite split_without.
  - apply find_None in Hf. exfalso. apply Hf. by exists x, y.
Qed.

Lemma split_head_headed (c : char) (sep x z : str) :
  headed c sep -> ~ contains sep x -> split sep (x ++ sep ++ z) !! 0 = Some x.
Proof.
  intros Hsep Hx. rewrite split_unfold by by eapply headed_nonempty.
  rewrite (find_headed c) by assumption. simpl. by rewrite take_app_length.
Qed.

(** *** The tags *)

Lemma headed_answer_open : headed lt_sign answer_open.
Proof. eexists. split; [reflexivity|]. compute_done. Qed.

Lemma headed_answer_close : headed lt_sign answer_close.
Proof. eexists. split; [reflexivity|]. compute_done. Qed.

Lemma headed_reasoning_close : headed lt_sign reasoning_close.
Proof. eexists. split; [reflexivity|]. compute_done. Qed.

(** An opening answer tag cannot start inside, or straddle, a closing one. *)
Lemma answer_open_not_across (A suffix : str) :
  ~ contains answer_open A -> ~ contains answer_open suffix ->
  ~ contains answer_open (A ++ answer_close ++ suffix).
Proof.
  intros HA Hs (a & b & Heq). symmetry in Heq.
  destruct (headed_overlap lt_sign answer_open answer_close a b A suffix
              headed_answer_open headed_answer_close Heq) as [Hin|[Hat|Hout]].
  - apply HA. by eapply contains_left.
  - apply app_inj_1 in Heq as [_ Heq]; [|assumption]. discriminate Heq.
  - apply Hs. rewrite (app_assoc A) in Heq. eapply contains_right; [exact Heq|].
    rewrite length_app. lia.
Qed.

(** ** The answer extractors *)

Lemma extract_xml_answer_try_Ok (text : str) :
  exists answer, extract_xml_answer_try text = Ok answer.
Proof.
  unfold extract_xml_answer_try, index_last, index.
  destruct (last (split answer_open text)) as [tail|] eqn:Hl.
  - simpl. destruct (split answer_close tail) as [|piece ?] eqn:Hs.
    + by apply split_nonempty in Hs.
    + simpl. eauto.
  - apply last_None in Hl. by apply split_nonempty in Hl.
Qed.

(** C3: on [prefix + "<answer>" + A + "</answer>" + suffix], where [A] has
    neither tag and no ["<answer>"] follows, [extract_xml_answer] returns
    [A] stripped of leading and trailing whitespace. *)
Theorem extract_xml_answer_tagged (prefix A suffix : str) :
  ~ contains answer_open A ->
  ~ contains answer_close A ->
  ~ contains answer_open suffix ->
  extract_xml_answer (prefix ++ answer_open ++ A ++ answer_close ++ suffix)
  = strip A.
Proof.
  intros HAo HAc Hs. unfold extract_xml_answer, extract_xml_answer_try, index_last, index.
  rewrite (split_last_headed lt_sign)
    by (apply headed_answer_open || by apply answer_open_not_across).
  cbn [rbind]. rewrite (split_head_headed lt_sign)
    by (apply headed_answer_close || assumption).
  reflexivity.
Qed.

Lemma extract_xml_answer_tagged_witness :
  ~ contains answer_open (lit " 72 ") /\
  ~ contains answer_close (lit " 72 ") /\
  ~ contains answer_open (lit "</answer>.") /\
  extract_xml_answer
    (lit "<answer>1</answer> so " ++ answer_open ++ lit " 72 " ++ answer_close
     ++ lit "</answer>.")
  = strip (lit " 72 ").
Proof.
  assert (H1 : ~ contains answer_open (lit " 72 "))
    by (apply find_None; vm_compute; reflexivity).
  assert (H2 : ~ contains answer_close (lit " 72 "))
    by (apply find_None; vm_compute; reflexivity).
  assert (H3 : ~ contains answer_open (lit "</answer>."))
    by (apply find_None; vm_compute; reflexivity).
  split; [exact H1|]. split; [exact H2|]. split; [exact H3|].
  exact (extract_xml_answer_tagged (lit "<answer>1</answer> so ") _ _ H1 H2 H3).
Defined.

(** C5: [extract_hash_answer] returns [None] exactly on the strings
    without ["####"]; on the others it returns, stripped, the text between
    the first ["####"] and the next one, or the end of the string. *)
Theorem extract_hash_answer_spec (text : str) :
  (extract_hash_answer text = None <-> ~ contains hash_sep text) /\
  (contains hash_sep text ->
   exists a rest b,
     first_cut hash_sep text a rest /\ up_to_next hash_sep rest b /\
     extract_hash_answer text = Some (strip b)).
Proof.
  assert (Hne : hash_sep <> []) by discriminate.
  unfold extract_hash_answer, extract_hash_answer_try, index.
  rewrite (split_unfold hash_sep text Hne).
  destruct (find hash_sep text) as [i|] eqn:Hf.
  - set (rest := drop (i + length hash_sep) text).
    assert (Hc : contains hash_sep text).
    { apply contains_occurs. exists i. by apply find_Some in Hf as [? _]. }
    assert (Hex : exists b, up_to_next hash_sep rest b /\
                            split hash_sep rest !! 0 = Some b).
    { rewrite (split_unfold hash_sep rest Hne).
      destruct (find hash_sep rest) as [j|] eqn:Hg.
      - exists (take j rest). split; [|reflexivity].
        right. eexists. by apply find_first_cut.
      - exists rest. split; [|reflexivity]. left. split; [by apply find_None | reflexivity]. }
    destruct Hex as (b & Hb & Hs). simpl. rewrite Hs. simpl. split.
    + split; [discriminate | done].
    + intros _. exists (take i text), rest, b.
      split; [by apply find_first_cut | done].
  - simpl. apply find_None in Hf. split; [done | intros Hc; by destruct Hf].
Qed.

Lemma extract_hash_answer_spec_witness :
  exists a rest b,
    first_cut hash_sep (lit "6*3=18 #### 18 ####") a rest /\
    up_to_next hash_sep rest b /\
    extract_hash_answer (lit "6*3=18 #### 18 ####") = Some (strip b).
Proof.
  apply (proj2 (extract_hash_answer_spec (lit "6*3=18 #### 18 ####"))).
  exists (lit "6*3=18 "), (lit " 18 ####"). vm_compute. reflexivity.
Defined.

(** C6: the [IndexError] handler of [extract_xml_answer] is dead code:
    both splits give a non-empty list, the [try] body always returns, and
    a string with neither tag comes back whole and stripped. *)
Theorem extract_xml_answer_handler_unreachable (text : str) :
  split answer_open text <> [] /\
  (forall tail, split answer_close tail <> []) /\
  (exists answer,
     extract_xml_answer_try text = Ok answer /\ extract_xml_answer text = answer) /\
  (~ contains answer_open text -> ~ contains answer_close text ->
   extract_xml_answer text = strip text).
Proof.
  split; [apply split_nonempty|]. split; [intros; apply split_nonempty|]. split.
  - destruct (extract_xml_answer_try_Ok text) as [answer H]. exists answer.
    unfold extract_xml_answer. by rewrite H.
  - intros Ho Hc. unfold extract_xml_answer, extract_xml_answer_try.
    rewrite (split_without _ _ Ho). simpl. by rewrite (split_without _ _ Hc).
Qed.

Lemma extract_xml_answer_handler_unreachable_witness :
  extract_xml_answer (lit " no tags here ") = strip (lit " no tags here ").
Proof.
  apply (proj2 (proj2 (proj2
           (extract_xml_answer_handler_unreachable (lit " no tags here ")))));
    apply find_None; vm_compute; reflexivity.
Defined.

(** ** The matcher agrees with what the pattern denotes *)

Lemma iter_nil_inv (step : nat -> str -> nat -> str -> Prop) pos pos' s' :
  iter step pos [] pos' s' -> pos' = pos /\ s' = [].
Proof. inversion 1; subst; [auto | simpl in *; lia]. Qed.

Lemma rounds_sem (body : nat -> str -> (nat -> str -> bool) -> bool)
    (step : nat -> str -> nat -> str -> Prop) :
  (forall pos s k,
     body pos s k = true <-> exists p1 s1, step pos s p1 s1 /\ k p1 s1 = true) ->
  forall n k pos s, length s <= n ->
    rounds body k n pos s = true <->
    exists pos' s', iter step pos s pos' s' /\ k pos' s' = true.
Proof.
  intros Hbody n k. induction n as [|n IH]; intros pos s Hn.
  - destruct s; [|simpl in Hn; lia]. simpl. split.
    + intros Hk. exists pos, []. split; [constructor | assumption].
    + intros (pos' & s' & [-> ->]%iter_nil_inv & Hk). assumption.
  - simpl. rewrite orb_true_iff, Hbody. split.
    + intros [(p1 & s1 & Hstep & Hk)|Hk].
      * destruct (length s1 <? length s) eqn:Hlt; [|discriminate].
        apply Nat.ltb_lt in Hlt. apply IH in Hk as (pos' & s' & Hit & Hk); [|lia].
        exists pos', s'. split; [by eapply iter_more | assumption].
      * exists pos, s. split; [constructor | assumption].
    + intros (pos' & s' & Hit & Hk). inversion Hit as [|? ? p1 s1 ? ? Hstep Hlt Hit']; subst.
      * by right.
      * left. exists p1, s1. split; [assumption|].
        apply Nat.ltb_lt in Hlt as Hlt'. rewrite Hlt'. apply IH; [lia|]. eauto.
Qed.

(** The backtracking matcher succeeds exactly when the expression has a
    match that the rest of the pattern accepts. *)
Lemma exec_sem (r : regex) :
  forall pos s k,
    exec r pos s k = true <-> exists pos' s', sem r pos s pos' s' /\ k pos' s' = true.
Proof.
  induction r as [c| | | |r IH|r1 IH1 r2 IH2|r IH|]; intros pos s k; simpl.
  - destruct s as [|x s].
    + split; [discriminate | intros (? & ? & [[=] _] & _)].
    + destruct (char_eqb x c) eqn:Hx.
      * apply char_eqb_eq in Hx as ->. split; [eauto 6|].
        by intros (? & ? & [[= ->] ->] & Hk).
      * split; [discriminate|]. intros (? & ? & [[= -> ->] _] & _).
        by rewrite char_eqb_refl in Hx.
  - destruct s as [|x s].
    + split; [discriminate | intros (? & ? & [(? & [=] & _) _] & _)].
    + destruct (char_eqb x newline) eqn:Hx.
      * apply char_eqb_eq in Hx as ->. split; [discriminate|].
        by intros (? & ? & [(? & [= <- <-] & Hne) _] & _).
      * split.
        -- intros Hk. exists (S pos), s. split; [|assumption]. split; [|reflexivity].
           exists x. split; [reflexivity|]. intros ->. by rewrite char_eqb_refl in Hx.
        -- by intros (? & ? & [(? & [= <- <-] & _) ->] & Hk).
  - destruct (pos =? 0) eqn:Hp.
    + apply Nat.eqb_eq in Hp. split; [eauto 6|]. by intros (? & ? & (_ & -> & ->) & Hk).
    + apply Nat.eqb_neq in Hp. split; [discriminate|]. by intros (? & ? & (? & _) & _).
  - destruct s as [|x [|y s]].
    + split; [eauto 7|]. by intros (? & ? & (_ & -> & ->) & Hk).
    + destruct (char_eqb x newline) eqn:Hx.
      * apply char_eqb_eq in Hx as ->. split; [eauto 7|].
        by intros (? & ? & (_ & -> & ->) & Hk).
      * split; [discriminate|]. intros (? & ? & ([[=]|[= ->]] & _) & _).
        by rewrite char_eqb_refl in Hx.
    + split; [discriminate|]. by intros (? & ? & ([[=]|[=]] & _) & _).
  - destruct (exec r pos s (fun _ _ => true)) eqn:Hr.
    + apply IH in Hr as (p1 & s1 & Hr & _). split; [discriminate|].
      intros (? & ? & (Hno & _) & _). destruct Hno. eauto.
    + split.
      * intros Hk. exists pos, s. split; [|assumption]. split; [|auto].
        intros (p1 & s1 & Hs). assert (exec r pos s (fun _ _ => true) = true) as Ht
          by (apply IH; eauto). congruence.
      * by intros (? & ? & (_ & -> & ->) & Hk).
  - rewrite IH1. split.
    + intros (p1 & s1 & H1 & (pos' & s' & H2 & Hk)%IH2). eauto 8.
    + intros (pos' & s' & (p1 & s1 & H1 & H2) & Hk). exists p1, s1. split; [assumption|].
      apply IH2. eauto.
  - by apply rounds_sem.
  - split; [eauto 6|]. by intros (? & ? & (-> & ->) & Hk).
Qed.

Lemma matches_sem (r : regex) (s : str) :
  matches r s = true <-> exists pos' s', sem r 0 s pos' s'.
Proof.
  unfold matches. rewrite exec_sem. split.
  - intros (pos' & s' & H & _). eauto.
  - intros (pos' & s' & H). eauto.
Qed.

Lemma sem_lits (p : str) :
  forall pos s pos' s',
    sem (lits p) pos s pos' s' <-> s = p ++ s' /\ pos' = pos + length p.
Proof.
  induction p as [|c p IH]; intros pos s pos' s'; simpl.
  - split; intros [-> ->]; split; auto with lia.
  - split.
    + intros (p1 & s1 & [-> ->] & [-> ->]%IH). split; [reflexivity | lia].
    + intros [-> ->]. exists (S pos), (p ++ s'). split; [auto|].
      apply IH. split; [reflexivity | lia].
Qed.

Lemma not_sem_lits (p : str) (pos : nat) (s : str) :
  ~ (exists p1 s1, sem (lits p) pos s p1 s1) <-> starts_with p s = false.
Proof.
  rewrite <- not_true_iff_false, starts_with_iff. split; intros H.
  - intros [b ->]. apply H. exists (pos + length p), b. by apply sem_lits.
  - intros (p1 & s1 & [-> _]%sem_lits). apply H. eauto.
Qed.

Lemma sem_guarded_dot (p : str) (pos : nat) (s : str) (pos' : nat) (s' : str) :
  sem (Cat (NotAhead (lits p)) Any) pos s pos' s' <->
  (exists x, s = x :: s' /\ x <> newline) /\ starts_with p s = false /\ pos' = S pos.
Proof.
  cbn [sem]. split.
  - intros (p1 & s1 & (Hno%not_sem_lits & -> & ->) & Hx & ->). auto.
  - intros (Hx & Hno%(not_sem_lits p pos) & ->). exists pos, s. auto.
Qed.

Lemma iter_guarded_dot (p : str) (pos : nat) (s : str) (pos' : nat) (s' : str) :
  iter (sem (Cat (NotAhead (lits p)) Any)) pos s pos' s' <->
  exists R, s = R ++ s' /\ dot_run p R s' /\ pos' = pos + length R.
Proof.
  split.
  - induction 1 as [pos s|pos s p1 s1 p2 s2 Hstep _ _ IH].
    + exists []. split; [reflexivity|]. split; [|simpl; lia].
      split; [apply not_elem_of_nil | simpl; lia].
    + apply sem_guarded_dot in Hstep as ((x & -> & Hx) & Hno & ->).
      destruct IH as (R & -> & [Hnl Hrun] & ->). exists (x :: R).
      split; [reflexivity|]. split; [|simpl; lia]. split.
      * apply not_elem_of_cons. auto.
      * intros [|j] Hj; [exact Hno|]. simpl in *. apply Hrun. lia.
  - intros (R & -> & [Hnl Hrun] & ->). revert pos Hnl Hrun.
    induction R as [|x R IH]; intros pos Hnl Hrun.
    + simpl. replace (pos + 0) with pos by lia. constructor.
    + apply not_elem_of_cons in Hnl as [Hx Hnl].
      apply (iter_more _ _ _ (S pos) (R ++ s')).
      * apply sem_guarded_dot. split; [eauto|]. split; [|reflexivity].
        apply (Hrun 0). simpl. lia.
      * simpl. lia.
      * replace (pos + length (x :: R)) with (S pos + length R) by (simpl; lia).
        apply IH; [assumption|]. intros j Hj. apply (Hrun (S j)). simpl. lia.
Qed.

(** In front of its closing tag, a run of the guarded dot is any text
    with neither a newline nor the tag. *)
Lemma dot_run_headed (c : char) (p R z : str) :
  headed c p ->
  dot_run p R (p ++ z) <-> (newline ∉ R) /\ ~ contains p R.
Proof.
  intros Hp. pose proof (headed_nonempty _ _ Hp) as Hne.
  assert (0 < length p) by (destruct p; [congruence | simpl; lia]).
  split; intros [Hnl H']; (split; [assumption|]).
  - intros (a & b & ->).
    assert (starts_with p (drop (length a) ((a ++ p ++ b) ++ p ++ z)) = false) as Hf
      by (apply H'; rewrite !length_app; lia).
    rewrite <- !app_assoc, drop_app_length, starts_with_app in Hf. discriminate.
  - intros j Hj. apply not_true_iff_false. intros [b Hb]%starts_with_iff.
    assert (occurs_at p (R ++ p ++ z) j) as Hocc.
    { exists (take j (R ++ p ++ z)), b. split.
      - by rewrite <- Hb, take_drop.
      - rewrite length_take, length_app. lia. }
    eapply headed_first in Hocc; [lia | eassumption | assumption].
Qed.

(** What the format pattern accepts, as the matcher sees it. *)
Lemma pattern_sem (s : str) :
  (exists pos' s', sem pattern 0 s pos' s') <->
  exists R A tail,
    s = tagged R A ++ tail /\
    dot_run reasoning_close R
      (reasoning_close ++ nl ++ answer_open ++ A ++ answer_close ++ tail) /\
    dot_run answer_close A (answer_close ++ tail) /\
    (tail = [] \/ tail = [newline]).
Proof.
  unfold pattern. cbn [sem]. split.
  - intros (pos' & s' & p1 & s1 & (_ & -> & ->) & p2 & s2 & [-> ->]%sem_lits
            & p3 & s3 & (R & -> & HR & ->)%iter_guarded_dot
            & p4 & s4 & [-> ->]%sem_lits & p5 & s5 & [-> ->]
            & p6 & s6 & [-> ->]%sem_lits
            & p7 & s7 & (A & -> & HA & ->)%iter_guarded_dot
            & p8 & s8 & [-> ->]%sem_lits & Hend & -> & ->).
    exists R, A, s8. unfold tagged, nl. rewrite <- !app_assoc. simpl. auto.
  - intros (R & A & tail & -> & HR & HA & Hend).
    unfold tagged, nl. rewrite <- !app_assoc.
    eexists _, tail. eexists 0, _. split; [auto|].
    eexists _, _. split; [apply sem_lits; split; reflexivity|].
    eexists _, _. split; [apply iter_guarded_dot; exists R; split; [reflexivity|];
                          split; [exact HR | reflexivity]|].
    eexists _, _. split; [apply sem_lits; split; reflexivity|].
    eexists _, _. split; [split; reflexivity|].
    eexists _, _. split; [apply sem_lits; split; reflexivity|].
    eexists _, _. split; [apply iter_guarded_dot; exists A; split; [reflexivity|];
                          split; [exact HA | reflexivity]|].
    eexists _, _. split; [apply sem_lits; split; reflexivity|].
    auto.
Qed.

(** The format pattern accepts exactly the [accepted] texts. *)
Lemma matches_pattern_iff (text : str) :
  matches pattern text = true <-> accepted text.
Proof.
  rewrite matches_sem, pattern_sem. unfold accepted. split.
  - intros (R & A & tail & -> & HR & HA & Hend).
    apply (dot_run_headed lt_sign) in HR as [? ?]; [|apply headed_reasoning_close].
    apply (dot_run_headed lt_sign) in HA as [? ?]; [|apply headed_answer_close].
    exists R, A. repeat (split; [assumption|]).
    destruct Hend as [-> | ->]; [left; by rewrite app_nil_r | by right].
  - intros (R & A & HRn & HAn & HRc & HAc & Htext).
    exists R, A, (if decide (text = tagged R A) then [] else [newline]).
    split; [|split; [|split]].
    + case_decide; [by rewrite app_nil_r | by destruct Htext].
    + apply (dot_run_headed lt_sign); [apply headed_reasoning_close | auto].
    + apply (dot_run_headed lt_sign); [apply headed_answer_close | auto].
    + case_decide; auto.
Qed.





Lemma last_tagged (R A : str) : last (tagged R A) = Some 62%N.
Proof. unfold tagged. by rewrite !app_assoc, last_app. Qed.


(** ** The reward functions *)

Lemma float_1_ne_0 : 1%float <> 0%float.
Proof.
  intros H. apply (f_equal (fun x => PrimFloat.eqb x 0)) in H.
  vm_compute in H. discriminate.
Qed.

Lemma float_2_ne_0 : 2%float <> 0%float.
Proof.
  intros H. apply (f_equal (fun x => PrimFloat.eqb x 0)) in H.
  vm_compute in H. discriminate.
Qed.

Lemma py_eq_iff (r : str) (a : option str) : py_eq r a = true <-> a = Some r.
Proof.
  destruct a as [s|]; simpl; [|split; discriminate].
  rewrite str_eqb_eq. split; [by intros -> | by intros [= ->]].
Qed.

Lemma first_content_Ok (completion : list message) (r : str) :
  first_content completion = Ok r <->
  exists m, completion !! 0 = Some m /\ r = content m.
Proof.
  unfold first_content, index. destruct (completion !! 0) as [m|]; simpl.
  - split; [intros [= <-]; eauto | by intros (? & [= <-] & ->)].
  - split; [discriminate | by intros (? & [=] & _)].
Qed.

Lemma first_content_nonempty (completion : list message) :
  completion <> [] -> exists r, first_content completion = Ok r.
Proof. destruct completion as [|m ?]; [done|]. intros _. by exists (content m). Qed.

Lemma first_content_Raise (completion : list message) (e : exn) :
  first_content completion = Raise e -> completion = [] /\ e = IndexError.
Proof. destruct completion; [by intros [= <-] | discriminate]. Qed.

Lemma map_result_Ok {A B} (f : A -> result B) (l : list A) (ys : list B) :
  map_result f l = Ok ys <-> Forall2 (fun x y => f x = Ok y) l ys.
Proof.
  revert ys. induction l as [|x l IH]; intros ys; simpl.
  - split; [intros [= <-]; constructor | by intros ->%Forall2_nil_inv_l].
  - destruct (f x) as [y|e] eqn:Hx; simpl.
    + destruct (map_result f l) as [ys'|e] eqn:Hl; simpl.
      * split.
        -- intros [= <-]. constructor; [assumption | by apply IH].
        -- intros (y' & ys'' & Hy & Hys & ->)%Forall2_cons_inv_l.
           apply IH in Hys. congruence.
      * split; [discriminate|].
        intros (y' & ys'' & _ & Hys%IH & _)%Forall2_cons_inv_l. discriminate.
    + split; [discriminate|].
      intros (y' & ys'' & Hy & _)%Forall2_cons_inv_l. congruence.
Qed.

Lemma map_result_total {A B} (f : A -> result B) (l : list A) :
  Forall (fun x => exists y, f x = Ok y) l -> exists ys, map_result f l = Ok ys.
Proof.
  induction 1 as [|x l [y Hy] _ [ys Hys]]; simpl; [eauto|].
  rewrite Hy, Hys. simpl. eauto.
Qed.

Lemma map_result_Raise {A B} (f : A -> result B) (l : list A) (e : exn) :
  map_result f l = Raise e -> exists x, x ∈ l /\ f x = Raise e.
Proof.
  induction l as [|x l IH]; simpl; [discriminate|].
  destruct (f x) as [y|e'] eqn:Hx; simpl.
  - destruct (map_result f l) as [ys|e'']; simpl; [discriminate|].
    intros [= ->]. destruct IH as (x' & ? & ?); [reflexivity|].
    exists x'. split; [apply elem_of_cons; auto | assumption].
  - intros [= ->]. exists x. split; [apply elem_of_cons; auto | assumption].
Qed.

(** The contents a list of completions yields, when each has a first
    message. *)
Lemma responses_lookup (completions : list (list message)) (responses : list str) :
  map_result first_content completions = Ok responses ->
  length responses = length completions /\
  forall i completion m,
    completions !! i = Some completion -> completion !! 0 = Some m ->
    responses !! i = Some (content m).
Proof.
  intros H%map_result_Ok. split; [symmetry; by eapply Forall2_length|].
  intros i completion m Hi Hm.
  destruct (Forall2_lookup_l _ _ _ _ _ H Hi) as (r & Hr & (m' & Hm' & ->)%first_content_Ok).
  congruence.
Qed.

Section RewardProperties.

Context {E : Type}.
Implicit Types (w : world E) (completions prompts : list (list message)).

Lemma format_reward_func_eq completions w :
  format_reward_func completions w =
  (match map_result first_content completions with
   | Ok responses => Ok (map format_score responses)
   | Raise e => Raise e
   end, w).
Proof.
  unfold format_reward_func, bind, lift, ret.
  destruct (map_result first_content completions); [|reflexivity].
  by rewrite map_map.
Qed.

Lemma correctness_reward_func_eq prompts completions answer w :
  correctness_reward_func prompts completions answer w =
  match correctness_outcome prompts completions answer with
  | Ok (l, rewards) => (Ok rewards, (print l w).2)
  | Raise e => (Raise e, w)
  end.
Proof.
  unfold correctness_reward_func, correctness_outcome, bind, lift, ret.
  destruct (map_result first_content completions) as [responses|]; [|reflexivity].
  cbn [rbind]. destruct (index prompts 0) as [p|]; [|reflexivity].
  cbn [rbind]. destruct (index_last p) as [m|]; [|reflexivity].
  cbn [rbind]. destruct (index answer 0) as [a0|]; [|reflexivity].
  cbn [rbind]. destruct (index responses 0) as [r0|]; [|reflexivity].
  cbn [rbind]. destruct (index (map extract_xml_answer responses) 0) as [e0|];
    reflexivity.
Qed.

Lemma format_scores_lookup (responses : list str) (i : nat) (r : str) :
  responses !! i = Some r -> map format_score responses !! i = Some (format_score r).
Proof.
  intros H. change (map format_score responses) with (format_score <$> responses).
  by rewrite list_lookup_fmap, H.
Qed.

Lemma correctness_scores_eq (responses : list str) (answer : list (option str)) :
  map (fun ra => if py_eq ra.1 ra.2 then 2%float else 0%float)
      (zip (map extract_xml_answer responses) answer)
  = zip_with correctness_score responses answer.
Proof.
  revert answer. induction responses as [|r rs IH]; intros [|a answer];
    simpl; try reflexivity.
  by rewrite IH.
Qed.

Lemma correctness_outcome_Ok prompts completions answer l rewards :
  correctness_outcome prompts completions answer = Ok (l, rewards) ->
  exists responses,
    map_result first_content completions = Ok responses /\
    rewards = zip_with correctness_score responses answer.
Proof.
  unfold correctness_outcome.
  destruct (map_result first_content completions) as [responses|]; [|discriminate].
  cbn [rbind]. destruct (index prompts 0) as [p|]; [|discriminate].
  cbn [rbind]. destruct (index_last p) as [m|]; [|discriminate].
  cbn [rbind]. destruct (index answer 0) as [a0|]; [|discriminate].
  cbn [rbind]. destruct (index responses 0) as [r0|]; [|discriminate].
  cbn [rbind]. destruct (index (map extract_xml_answer responses) 0) as [e0|];
    [|discriminate].
  cbn [rbind]. intros [= <- <-]. exists responses.
  split; [reflexivity | apply correctness_scores_eq].
Qed.

Lemma correctness_outcome_Raise prompts completions answer e :
  correctness_outcome prompts completions answer = Raise e -> e = IndexError.
Proof.
  unfold correctness_outcome, index, index_last.
  destruct (map_result first_content completions) as [responses|e'] eqn:Hr.
  - cbn [rbind]. destruct (prompts !! 0) as [p|]; [|by intros [= <-]].
    cbn [rbind]. destruct (last p) as [m|]; [|by intros [= <-]].
    cbn [rbind]. destruct (answer !! 0) as [a0|]; [|by intros [= <-]].
    cbn [rbind]. destruct (responses !! 0) as [r0|]; [|by intros [= <-]].
    cbn [rbind]. destruct (map extract_xml_answer responses !! 0) as [e0|];
      [discriminate | by intros [= <-]].
  - cbn [rbind]. intros [= <-].
    apply map_result_Raise in Hr as (c & _ & Hc).
    by apply first_content_Raise in Hc as [_ ->].
Qed.

(** [correctness_reward_func] returns exactly on the reportable inputs. *)
Lemma correctness_outcome_total prompts completions answer :
  reportable prompts completions answer <->
  exists l rewards, correctness_outcome prompts completions answer = Ok (l, rewards).
Proof.
  unfold reportable, correctness_outcome, index, index_last. split.
  - intros (Hall & (p & Hp & Hpne) & Hc & Ha).
    destruct (map_result_total first_content completions) as [responses Hr].
    { eapply Forall_impl; [exact Hall|]. apply first_content_nonempty. }
    rewrite Hr. cbn [rbind]. rewrite Hp. cbn [rbind].
    destruct (last p) as [m|] eqn:Hl; [|apply last_None in Hl; congruence].
    cbn [rbind]. destruct answer as [|a0 answer]; [done|]. cbn [rbind lookup list_lookup].
    apply responses_lookup in Hr as [Hlen _].
    destruct responses as [|r0 responses];
      [destruct completions; [done | discriminate]|].
    simpl. eauto.
  - intros (l & rewards & H).
    destruct (map_result first_content completions) as [responses|] eqn:Hr; [|discriminate].
    cbn [rbind] in H. destruct (prompts !! 0) as [p|]; [|discriminate].
    cbn [rbind] in H. destruct (last p) as [m|] eqn:Hl; [|discriminate].
    cbn [rbind] in H. destruct (answer !! 0) as [a0|] eqn:Ha; [|discriminate].
    cbn [rbind] in H. destruct (responses !! 0) as [r0|] eqn:Hr0; [|discriminate].
    split; [|split; [|split]].
    + apply map_result_Ok in Hr. eapply Forall2_Forall_l; [exact Hr|].
      apply Forall_forall. intros r _ c (m' & Hm' & _)%first_content_Ok ->. discriminate.
    + exists p. split; [reflexivity|]. intros ->. discriminate.
    + apply responses_lookup in Hr as [Hlen _]. intros ->.
      destruct responses; discriminate.
    + intros ->. discriminate.
Qed.

Lemma format_score_1 (text : str) : format_score text = 1%float <-> accepted text.
Proof.
  unfold format_score. rewrite <- matches_pattern_iff.
  destruct (matches pattern text); split;
    first [done | intros H; symmetry in H; by apply float_1_ne_0 in H].
Qed.

Lemma format_score_0 (text : str) : format_score text = 0%float <-> ~ accepted text.
Proof.
  unfold format_score. rewrite <- matches_pattern_iff.
  destruct (matches pattern text); split;
    first [done | by intros ?%float_1_ne_0].
Qed.

Lemma correctness_score_2 (text : str) (a : option str) :
  correctness_score text a = 2%float <-> a = Some (extract_xml_answer text).
Proof.
  unfold correctness_score. rewrite <- py_eq_iff.
  destruct (py_eq (extract_xml_answer text) a); split;
    first [done | intros H; symmetry in H; by apply float_2_ne_0 in H].
Qed.

Lemma correctness_score_0 (text : str) (a : option str) :
  correctness_score text a = 0%float <-> a <> Some (extract_xml_answer text).
Proof.
  unfold correctness_score. rewrite <- py_eq_iff.
  destruct (py_eq (extract_xml_answer text) a); split;
    first [done | by intros ?%float_2_ne_0].
Qed.

Lemma format_reward_func_Ok completions w rewards w' :
  format_reward_func completions w = (Ok rewards, w') ->
  exists responses,
    map_result first_content completions = Ok responses /\
    rewards = map format_score responses /\ w' = w.
Proof.
  rewrite format_reward_func_eq.
  destruct (map_result first_content completions) as [responses|]; [|discriminate].
  intros [= <- <-]. eauto.
Qed.

Lemma correctness_reward_func_Ok prompts completions answer w rewards w' :
  correctness_reward_func prompts completions answer w = (Ok rewards, w') ->
  exists responses,
    map_result first_content completions = Ok responses /\
    rewards = zip_with correctness_score responses answer.
Proof.
  rewrite correctness_reward_func_eq.
  destruct (correctness_outcome prompts completions answer) as [[l rs]|] eqn:H;
    [|discriminate].
  intros [= <- _]. by eapply correctness_outcome_Ok.
Qed.

Lemma format_reward_func_total completions w :
  Forall (fun completion => completion <> []) completions ->
  exists rewards, format_reward_func completions w = (Ok rewards, w).
Proof.
  intros Hall. rewrite format_reward_func_eq.
  destruct (map_result_total first_content completions) as [responses ->]; [|eauto].
  eapply Forall_impl; [exact Hall|]. apply first_content_nonempty.
Qed.

(** C2, as the code has it: on completions that each have a first
    message [format_reward_func] returns, and the i-th reward is 1.0
    exactly when the i-th content is [accepted]: a tagged completion whose
    reasoning and answer texts hold neither a newline nor their closing
    tag, optionally followed by one newline; it is 0.0 otherwise. *)
Theorem format_reward_func_scores completions w :
  (Forall (fun completion => completion <> []) completions ->
   exists rewards, format_reward_func completions w = (Ok rewards, w)) /\
  (forall rewards w',
     format_reward_func completions w = (Ok rewards, w') ->
     forall i completion m,
       completions !! i = Some completion -> completion !! 0 = Some m ->
       exists x, rewards !! i = Some x /\
         (x = 1%float <-> accepted (content m)) /\
         (x = 0%float <-> ~ accepted (content m))).
Proof.
  split; [apply format_reward_func_total|].
  intros rewards w' (responses & Hr & -> & _)%format_reward_func_Ok i completion m Hi Hm.
  apply responses_lookup in Hr as [_ Hr]. specialize (Hr i completion m Hi Hm).
  exists (format_score (content m)).
  split; [by apply format_scores_lookup|].
  split; [apply format_score_1 | apply format_score_0].
Qed.


(** C1, as the code has it: on completions and ground truths of equal
    length [correctness_reward_func] returns whenever it has something to
    report, and the i-th reward it returns is 2.0 exactly when the answer
    [extract_xml_answer] takes from the i-th content is the same string
    as the i-th ground truth, as Python's [==] decides it; it is 0.0
    otherwise.  No numeric value is compared. *)
Theorem correctness_reward_func_scores prompts completions answer w :
  length completions = length answer ->
  (reportable prompts completions answer ->
   exists rewards w',
     correctness_reward_func prompts completions answer w = (Ok rewards, w')) /\
  (forall rewards w',
     correctness_reward_func prompts completions answer w = (Ok rewards, w') ->
     length rewards = length completions /\
     forall i completion m a,
       completions !! i = Some completion -> completion !! 0 = Some m ->
       answer !! i = Some a ->
       exists x, rewards !! i = Some x /\
         (x = 2%float <-> a = Some (extract_xml_answer (content m))) /\
         (x = 0%float <-> a <> Some (extract_xml_answer (content m)))).
Proof.
  intros Hlen. split.
  - intros (l & rewards & H)%correctness_outcome_total.
    rewrite correctness_reward_func_eq, H. eauto.
  - intros rewards w' (responses & Hr & ->)%correctness_reward_func_Ok.
    apply responses_lookup in Hr as [Hlr Hr]. split.
    + rewrite length_zip_with. lia.
    + intros i completion m a Hi Hm Ha. specialize (Hr i completion m Hi Hm).
      exists (correctness_score (content m) a). split.
      * by rewrite lookup_zip_with, Hr, Ha.
      * split; [apply correctness_score_2 | apply correctness_score_0].
Qed.

(** C7, as the code has it: whenever a reward function returns a list,
    the list of [format_reward_func] has one element per completion, each
    0.0 or 1.0, and the list of [correctness_reward_func] has as many
    elements as the shorter of completions and answers, each 0.0 or 2.0.
    [format_reward_func] returns when every completion has a first
    message; [correctness_reward_func] returns exactly on the reportable
    inputs and raises [IndexError] on the others. *)
Theorem reward_lists_shape prompts completions answer w :
  (Forall (fun completion => completion <> []) completions ->
   exists rewards, format_reward_func completions w = (Ok rewards, w)) /\
  (forall rewards w',
     format_reward_func completions w = (Ok rewards, w') ->
     length rewards = length completions /\
     Forall (fun x => x = 0%float \/ x = 1%float) rewards) /\
  (reportable prompts completions answer <->
   exists rewards w',
     correctness_reward_func prompts completions answer w = (Ok rewards, w')) /\
  (~ reportable prompts completions answer ->
   correctness_reward_func prompts completions answer w = (Raise IndexError, w)) /\
  (forall rewards w',
     correctness_reward_func prompts completions answer w = (Ok rewards, w') ->
     length rewards = length completions `min` length answer /\
     Forall (fun x => x = 0%float \/ x = 2%float) rewards).
Proof.
  split; [apply format_reward_func_total|]. split; [|split; [|split]].
  - intros rewards w' (responses & Hr & -> & _)%format_reward_func_Ok.
    apply responses_lookup in Hr as [Hlr _]. split.
    + by rewrite length_map.
    + apply Forall_forall. intros x (r & -> & _)%list_elem_of_fmap.
      unfold format_score. destruct (matches pattern r); auto.
  - rewrite correctness_outcome_total. split.
    + intros (l & rewards & H). rewrite correctness_reward_func_eq, H. eauto.
    + intros (rewards & w' & H). rewrite correctness_reward_func_eq in H.
      destruct (correctness_outcome prompts completions answer) as [[l rs]|];
        [eauto | discriminate].
  - intros Hno. rewrite correctness_reward_func_eq.
    destruct (correctness_outcome prompts completions answer) as [[l rs]|e] eqn:H.
    + destruct Hno. apply correctness_outcome_total. eauto.
    + by apply correctness_outcome_Raise in H as ->.
  - intros rewards w' (responses & Hr & ->)%correctness_reward_func_Ok.
    apply responses_lookup in Hr as [Hlr _]. split.
    + rewrite length_zip_with. lia.
    + apply Forall_lookup. intros i x Hx. rewrite lookup_zip_with in Hx.
      destruct (responses !! i) as [r|]; [|discriminate].
      destruct (answer !! i) as [a|]; [|discriminate].
      injection Hx as <-. unfold correctness_score.
      destruct (py_eq (extract_xml_answer r) a); auto.
Qed.

(** C10: the rewards depend on the arguments only: from any two states
    of the world, each reward function gives the same outcome, be it a
    list of rewards or an exception. *)
Theorem rewards_deterministic prompts completions answer w1 w2 :
  (format_reward_func completions w1).1 = (format_reward_func completions w2).1 /\
  (correctness_reward_func prompts completions answer w1).1
  = (correctness_reward_func prompts completions answer w2).1.
Proof.
  split.
  - by rewrite !format_reward_func_eq.
  - rewrite !correctness_reward_func_eq.
    by destruct (correctness_outcome prompts completions answer) as [[l rs]|].
Qed.

End RewardProperties.

(** ** The timing instrumentation *)

Section TimingProperties.

Context {E args value : Type}.
Implicit Types (w : world E) (a : args).
Local Abbreviation method := (@method E args value).
Local Abbreviation trainer_of := (@GRPOTrainer E args value).

Lemma wrapped_generate_and_score_eq (original_generate : method) a w :
  wrapped_generate_and_score original_generate a w =
  match original_generate a w with
  | (Ok result, w1) =>
      match generation_start_time (callback w1) with
      | Some t0 => (Ok result, generation_measured t0 w1)
      | None => (Ok result, w1)
      end
  | (Raise e, w1) => (Raise e, w1)
  end.
Proof.
  unfold wrapped_generate_and_score, bind, get_callback.
  destruct (original_generate a w) as [[result|e] w1]; [|reflexivity].
  destruct (generation_start_time (callback w1)) as [t0|] eqn:Ht; [|reflexivity].
  unfold generation_measured. cbn. by rewrite <- app_assoc.
Qed.

(** [on_step_begin] records a timestamp on the steps that open an
    accumulation cycle, and does nothing on the others. *)
Lemma on_step_begin_eq (targs : TrainingArguments) (state : TrainerState) w :
  on_step_begin targs state w =
  if (gradient_accumulation_steps targs =? 0)%Z then (Raise ZeroDivisionError, w)
  else if (global_step state mod gradient_accumulation_steps targs =? 0)%Z then
    (Ok tt,
     {| ext := ext w;
        callback := {| generation_start_time := Some (clock w (reads w));
                       backprop_start_time := backprop_start_time (callback w);
                       step_count := step_count (callback w) |};
        stdout := stdout w
          ++ [[Txt (nl ++ lit "[Timing] Step " ++ str_of_Z (global_step state)
                    ++ lit " - Starting generation phase")]];
        clock := clock w;
        reads := S (reads w) |})
  else (Ok tt, w).
Proof.
  unfold on_step_begin, bind, lift, py_mod.
  destruct (gradient_accumulation_steps targs =? 0)%Z; [reflexivity|].
  by destruct (global_step state mod gradient_accumulation_steps targs =? 0)%Z.
Qed.

(** A method timed from outside: one clock reading before the call, one
    after it, and a line printed. *)
Lemma timed_call_eq (label : str) (original : method) a w :
  (start_time <- time_time ;;
   result <- original a ;;
   t <- time_time ;;
   print [Txt label; Fixed2 (t - start_time)%float; Txt (lit " seconds")] ;;;
   ret result) w =
  match original a (time_time w).2 with
  | (Ok result, w1) =>
      (Ok result,
       {| ext := ext w1; callback := callback w1;
          stdout := stdout w1
            ++ [[Txt label; Fixed2 (clock w1 (reads w1) - clock w (reads w))%float;
                 Txt (lit " seconds")]];
          clock := clock w1; reads := S (reads w1) |})
  | (Raise e, w1) => (Raise e, w1)
  end.
Proof.
  unfold bind. cbn [time_time snd].
  by destruct (original a _) as [[result|e] w1].
Qed.

(** C4: the instrumentation is transparent.  Each method [main]
    installs returns what the original returns from the state in which
    the wrapper calls it, raises what it raises, and leaves behind the
    world the original leaves, up to the callback's timestamps, the
    printed lines and the clock readings taken. *)
Theorem instrumentation_transparent (trainer : trainer_of) a w :
  let patched := main_trainer trainer in
  let w0 := (@time_time E w).2 in
  ((_generate_and_score_completions patched a w).1
     = (_generate_and_score_completions trainer a w).1 /\
   timing_only ((_generate_and_score_completions trainer a w).2)
               ((_generate_and_score_completions patched a w).2)) /\
  ((compute_loss patched a w).1 = (compute_loss trainer a w0).1 /\
   timing_only w w0 /\ callback w0 = callback w /\ stdout w0 = stdout w /\
   timing_only ((compute_loss trainer a w0).2) ((compute_loss patched a w).2) /\
   callback ((compute_loss patched a w).2) = callback ((compute_loss trainer a w0).2)) /\
  ((training_step patched a w).1 = (training_step trainer a w0).1 /\
   timing_only ((training_step trainer a w0).2) ((training_step patched a w).2) /\
   callback ((training_step patched a w).2) = callback ((training_step trainer a w0).2)).
Proof.
  cbn zeta. unfold main_trainer, patch_trainer. cbn [_generate_and_score_completions
    compute_loss training_step]. split; [|split].
  - rewrite wrapped_generate_and_score_eq.
    destruct (_generate_and_score_completions trainer a w) as [[result|e] w1];
      [|by repeat split].
    destruct (generation_start_time (callback w1)); by repeat split.
  - unfold wrapped_compute_loss. rewrite timed_call_eq.
    destruct (compute_loss trainer a _) as [[result|e] w1]; by repeat split.
  - unfold patched_training_step. rewrite timed_call_eq.
    destruct (training_step trainer a _) as [[result|e] w1]; by repeat split.
Qed.

(** C9, as the code has it: when the wrapped
    [_generate_and_score_completions] returns, the callback's
    [generation_start_time] is [None].  If a timestamp was pending after
    the original call, it has been used for one generation measurement
    and [backprop_start_time] holds a fresh reading; if none was pending,
    the wrapper has changed nothing, so [backprop_start_time] moves only
    when a measurement was in progress, and a second call that finds the
    field as the first one left it measures nothing.  When the original
    raises, the wrapper raises the same exception and leaves the world,
    a pending timestamp included, as the original left it. *)
Theorem generation_timestamp_consumed (original_generate : method) a w :
  let w1 := (original_generate a w).2 in
  (forall result w',
     wrapped_generate_and_score original_generate a w = (Ok result, w') ->
     generation_start_time (callback w') = None /\
     (forall t0, generation_start_time (callback w1) = Some t0 ->
        w' = generation_measured t0 w1) /\
     (generation_start_time (callback w1) = None -> w' = w1) /\
     (backprop_start_time (callback w') <> backprop_start_time (callback w1) ->
      exists t0, generation_start_time (callback w1) = Some t0) /\
     (forall a2 result2 w'',
        wrapped_generate_and_score original_generate a2 w' = (Ok result2, w'') ->
        generation_start_time (callback (original_generate a2 w').2)
          = generation_start_time (callback w') ->
        w'' = (original_generate a2 w').2)) /\
  (forall e,
     (original_generate a w).1 = Raise e ->
     wrapped_generate_and_score original_generate a w = (Raise e, w1)).
Proof.
  cbn zeta. split.
  - intros result w' H.
    assert (Hidle : forall a2 w2 result2 w'',
      wrapped_generate_and_score original_generate a2 w2 = (Ok result2, w'') ->
      generation_start_time (callback (original_generate a2 w2).2) = None ->
      w'' = (original_generate a2 w2).2).
    { intros a2 w2 result2 w'' H2 Hn. rewrite wrapped_generate_and_score_eq in H2.
      destruct (original_generate a2 w2) as [[r2|e2] w3]; [|discriminate].
      cbn [snd] in *. rewrite Hn in H2. by injection H2. }
    rewrite wrapped_generate_and_score_eq in H.
    destruct (original_generate a w) as [[r|e] w1]; [|discriminate]. cbn [snd].
    destruct (generation_start_time (callback w1)) as [t0|] eqn:Ht;
      injection H as <- <-.
    + split; [reflexivity|]. split; [by intros ? [= <-]|]. split; [discriminate|].
      split; [eauto|]. intros a2 result2 w'' H2 Hkeep. by eapply Hidle.
    + split; [exact Ht|]. split; [discriminate|]. split; [done|]. split; [done|].
      intros a2 result2 w'' H2 Hkeep. eapply Hidle; [exact H2|]. by rewrite Hkeep.
  - intros e He. rewrite wrapped_generate_and_score_eq.
    destruct (original_generate a w) as [[r|e'] w1]; [discriminate|].
    cbn [fst snd] in *. by injection He as ->.
Qed.

End TimingProperties.

(** ** The properties at work on concrete inputs *)

Lemma example_reportable :
  reportable example_prompts example_completions example_answer.
Proof.
  split; [repeat constructor; discriminate|].
  split; [eexists; split; [reflexivity | discriminate]|].
  split; discriminate.
Qed.

Lemma correctness_reward_func_scores_witness :
  length example_completions = length example_answer /\
  exists rewards w',
    correctness_reward_func example_prompts example_completions example_answer
      example_world
    = (Ok rewards, w').
Proof.
  split; [reflexivity|].
  exact (proj1 (correctness_reward_func_scores example_prompts example_completions
                  example_answer example_world eq_refl)
           example_reportable).
Defined.

Example correctness_reward_func_ex :
  (correctness_reward_func example_prompts example_completions example_answer
     example_world).1
  = Ok [2%float; 0%float].
Proof. vm_compute. reflexivity. Qed.

Lemma format_reward_func_scores_witness :
  format_reward_func [[assistant (tagged (lit "2+2 is 4") (lit "4"))]] example_world
  = (Ok [1%float], example_world) /\
  exists x, [1%float] !! 0 = Some x /\
    (x = 1%float <-> accepted (tagged (lit "2+2 is 4") (lit "4"))) /\
    (x = 0%float <-> ~ accepted (tagged (lit "2+2 is 4") (lit "4"))).
Proof.
  assert (H : format_reward_func [[assistant (tagged (lit "2+2 is 4") (lit "4"))]]
                example_world = (Ok [1%float], example_world))
    by (vm_compute; reflexivity).
  split; [exact H|].
  exact (proj2 (format_reward_func_scores _ example_world) _ _ H 0 _
           (assistant (tagged (lit "2+2 is 4") (lit "4"))) eq_refl eq_refl).
Defined.

(** C2 as stated fails both ways: a completion of the plain format whose
    reasoning runs over two lines scores 0.0, and a completion followed
    by a newline, which is not of the plain format, scores 1.0. *)
Lemma format_reward_func_plain_format_counterexample :
  (plain_format (tagged (lit "2+2" ++ nl ++ lit "is 4") (lit "4")) /\
   format_reward_func
     [[assistant (tagged (lit "2+2" ++ nl ++ lit "is 4") (lit "4"))]] example_world
   = (Ok [0%float], example_world)) /\
  (~ plain_format (tagged (lit "2+2 is 4") (lit "4") ++ nl) /\
   format_reward_func
     [[assistant (tagged (lit "2+2 is 4") (lit "4") ++ nl)]] example_world
   = (Ok [1%float], example_world)).
Proof.
  split; split.
  - exists (lit "2+2" ++ nl ++ lit "is 4"), (lit "4").
    split; [apply find_None; vm_compute; reflexivity|].
    split; [apply find_None; vm_compute; reflexivity | reflexivity].
  - vm_compute. reflexivity.
  - intros (R & A & _ & _ & Heq). apply (f_equal last) in Heq.
    unfold nl in Heq. rewrite last_tagged, last_snoc in Heq. discriminate.
  - vm_compute. reflexivity.
Qed.


(** C7 as stated fails where a reward function raises: with completions
    but no answers the shorter length is 0, yet no list comes back from
    [correctness_reward_func]; and [format_reward_func] raises on a
    completion without messages. *)
Lemma reward_lists_shape_counterexample :
  (length [[assistant (lit "<answer>4</answer>")]] `min` length (@nil (option str)) = 0 /\
   correctness_reward_func [[user (lit "What is 2+2?")]]
     [[assistant (lit "<answer>4</answer>")]] [] example_world
   = (Raise IndexError, example_world)) /\
  format_reward_func [[]] example_world = (Raise IndexError, example_world).
Proof. repeat split. Qed.

Lemma reward_lists_shape_witness :
  format_reward_func [[assistant (tagged (lit "2+2 is 4") (lit "4"))]] example_world
  = (Ok [1%float], example_world) /\
  length [1%float] = length [[assistant (tagged (lit "2+2 is 4") (lit "4"))]] /\
  Forall (fun x => x = 0%float \/ x = 1%float) [1%float].
Proof.
  assert (H : format_reward_func [[assistant (tagged (lit "2+2 is 4") (lit "4"))]]
                example_world = (Ok [1%float], example_world))
    by (vm_compute; reflexivity).
  split; [exact H|].
  exact (proj1 (proj2 (reward_lists_shape [] _ [] example_world)) _ _ H).
Defined.

Lemma generation_timestamp_consumed_witness :
  wrapped_generate_and_score echo 7 begun_world
  = (Ok 7, generation_measured 100%float begun_world) /\
  generation_start_time (callback (generation_measured 100%float begun_world)) = None.
Proof.
  assert (H : wrapped_generate_and_score echo 7 begun_world
              = (Ok 7, generation_measured 100%float begun_world))
    by (vm_compute; reflexivity).
  split; [exact H|].
  exact (proj1 (proj1 (generation_timestamp_consumed echo 7 begun_world) 7 _ H)).
Defined.

(** C9 as stated fails on a call that raises: the timestamp a step has
    recorded is still pending after it. *)
Lemma generation_timestamp_pending_counterexample :
  generation_start_time (callback begun_world) = Some 100%float /\
  wrapped_generate_and_score failing_generate 7 begun_world
  = (Raise (OtherError "OutOfMemoryError"), begun_world) /\
  generation_start_time
    (callback (wrapped_generate_and_score failing_generate 7 begun_world).2)
  = Some 100%float.
Proof. repeat split. Qed.

(** C1 as stated fails on an answer that is right as a number and
    written otherwise: ["04"] against the ground truth ["4"] scores 0.0. *)
Lemma correctness_reward_func_numeric_counterexample :
  numeric_value (extract_xml_answer (lit "<answer>04</answer>")) = Some 4%Z /\
  numeric_value (lit "4") = Some 4%Z /\
  (correctness_reward_func [[user (lit "What is 2+2?")]]
     [[assistant (lit "<answer>04</answer>")]] [Some (lit "4")] example_world).1
  = Ok [0%float].
Proof. repeat split. Qed.

(** A step begins, and generation is called twice: one measurement. *)
Example one_measurement_per_step :
  stdout (wrapped_generate_and_score echo 8
            (wrapped_generate_and_score echo 7 begun_world).2).2
  = [[Txt (nl ++ lit "[Timing] Step 8 - Starting generation phase")];
     [Txt (lit "[Timing] Generation phase completed in ");
      Fixed2 0.5%float; Txt (lit " seconds")];
     [Txt (lit "[Timing] Starting backpropagation phase")]].
Proof. vm_compute. reflexivity. Qed.

Example on_step_end_ex :
  let w := (wrapped_generate_and_score echo 7 begun_world).2 in
  let w' := (on_step_end {| gradient_accumulation_steps := 4 |}
               {| global_step := 8 |} w).2 in
  step_count (callback w') = 1%Z /\
  last (stdout w')
  = Some [Txt (lit "[Timing] Step 8 - Backpropagation completed in ");
          Fixed2 0.5%float; Txt (lit " seconds")].
Proof. vm_compute. split; reflexivity. Qed.

Example on_step_begin_ex :
  generation_start_time (callback begun_world) = Some 100%float /\
  reads begun_world = 1.
Proof. unfold begun_world. rewrite on_step_begin_eq. split; reflexivity. Qed.

Example on_step_begin_zero_accumulation :
  on_step_begin {| gradient_accumulation_steps := 0 |} {| global_step := 8 |}
    example_world
  = (Raise ZeroDivisionError, example_world).
Proof. reflexivity. Qed.

Example split_overlapping : split hash_sep (lit "#####x") = [[]; lit "#x"].
Proof. vm_compute. reflexivity. Qed.

Example extract_xml_answer_ex :
  extract_xml_answer (lit "<reasoning>r</reasoning><answer> 42 </answer>x") = lit "42".
Proof. vm_compute. reflexivity. Qed.

Example extract_hash_answer_ex :
  extract_hash_answer (lit "a #### 18 #### b") = Some (lit "18").
Proof. vm_compute. reflexivity. Qed.

Example str_of_Z_ex : str_of_Z (-120) = lit "-120" /\ str_of_Z 0 = lit "0".
Proof. vm_compute. split; reflexivity. Qed.

(** * Further properties *)

(** ** What stripping and splitting leave *)

Lemma lstrip_suffix (s : str) : exists a, s = a ++ lstrip s.
Proof.
  induction s as [|c s [a IH]]; simpl; [by exists []|].
  destruct (isspace c); [|by exists []].
  exists (c :: a). simpl. by rewrite <- IH.
Qed.

Lemma lstrip_head (s : str) (c : char) :
  head (lstrip s) = Some c -> isspace c = false.
Proof.
  induction s as [|x s IH]; simpl; [discriminate|].
  destruct (isspace x) eqn:Hx; [exact IH|]. by intros [= <-].
Qed.

Lemma lstrip_id (s : str) :
  (forall c, head s = Some c -> isspace c = false) -> lstrip s = s.
Proof. destruct s as [|x s]; simpl; [done|]. intros H. by rewrite (H x). Qed.

Lemma last_rev (u : str) : last (rev u) = head u.
Proof. destruct u as [|x u]; simpl; [done|]. by rewrite last_snoc. Qed.

Lemma head_rev (u : str) : head (rev u) = last u.
Proof. by rewrite <- last_rev, rev_involutive. Qed.

Lemma rstrip_prefix (s : str) : exists b, s = rstrip s ++ b.
Proof.
  unfold rstrip. destruct (lstrip_suffix (rev s)) as [a Ha].
  exists (rev a). by rewrite <- rev_app_distr, <- Ha, rev_involutive.
Qed.

Lemma rstrip_last (s : str) (c : char) :
  last (rstrip s) = Some c -> isspace c = false.
Proof. unfold rstrip. rewrite last_rev. apply lstrip_head. Qed.

Lemma rstrip_id (s : str) :
  (forall c, last s = Some c -> isspace c = false) -> rstrip s = s.
Proof.
  intros H. unfold rstrip. rewrite lstrip_id, rev_involutive; [done|].
  intros c. rewrite head_rev. apply H.
Qed.

(** [strip] returns a piece of its argument. *)
Lemma strip_substring (s : str) : exists a b, s = a ++ strip s ++ b.
Proof.
  unfold strip. destruct (lstrip_suffix s) as [a Ha].
  destruct (rstrip_prefix (lstrip s)) as [b Hb].
  exists a, b. by rewrite <- Hb.
Qed.

Lemma strip_head (s : str) (c : char) :
  head (strip s) = Some c -> isspace c = false.
Proof.
  unfold strip. destruct (rstrip_prefix (lstrip s)) as [b Hb].
  intros H. apply (lstrip_head s). rewrite Hb.
  by destruct (rstrip (lstrip s)).
Qed.

(** A stripped string has nothing left to strip. *)
Lemma strip_strip (s : str) : strip (strip s) = strip s.
Proof.
  unfold strip at 1. rewrite (lstrip_id (strip s)) by apply strip_head.
  apply rstrip_id. unfold strip. apply rstrip_last.
Qed.

Lemma contains_within (p x a b : str) :
  contains p x -> contains p (a ++ x ++ b).
Proof.
  intros (u & v & ->). exists (a ++ u), (v ++ b). by rewrite <- !app_assoc.
Qed.

Lemma strip_clean (p s : str) : ~ contains p s -> ~ contains p (strip s).
Proof.
  intros H Hc. apply H. destruct (strip_substring s) as (a & b & Hs).
  rewrite Hs. by apply contains_within.
Qed.

(** No piece of a split holds the separator. *)
Lemma split_pieces_clean (sep s : str) :
  sep <> [] -> Forall (fun piece => ~ contains sep piece) (split sep s).
Proof.
  intros Hne.
  assert (0 < length sep) by (destruct sep; [congruence | simpl; lia]).
  induction s as [s IH] using (induction_ltof1 _ (@length char)). unfold ltof in IH.
  rewrite split_unfold by assumption.
  destruct (find sep s) as [i|] eqn:Hf.
  - apply find_Some_length in Hf as Hlen. apply find_Some in Hf as [_ Hmin].
    constructor.
    + intros (a & b & Heq).
      assert (occurs_at sep s (length a)) as Hocc.
      { exists a, (b ++ drop i s). split; [|reflexivity].
        rewrite <- (take_drop i s) at 1. rewrite Heq. by rewrite <- !app_assoc. }
      apply Hmin in Hocc. apply (f_equal length) in Heq.
      rewrite length_take, !length_app in Heq. lia.
    + apply IH. rewrite length_drop. lia.
  - constructor; [by apply find_None | constructor].
Qed.

Lemma split_head_prefix (sep s x : str) :
  split sep s !! 0 = Some x -> exists b, s = x ++ b.
Proof.
  unfold split. destruct (length s) as [|n]; simpl;
    destruct (find sep s) as [i|]; simpl; intros [= <-].
  - exists []. by rewrite app_nil_r.
  - exists []. by rewrite app_nil_r.
  - exists (drop i s). by rewrite take_drop.
  - exists []. by rewrite app_nil_r.
Qed.

(** ** The extractors return clean answers *)

(** X1: whatever the text, the answer [extract_xml_answer] returns has
    no whitespace left at either end and holds neither answer tag. *)
Theorem extract_xml_answer_clean (text : str) :
  strip (extract_xml_answer text) = extract_xml_answer text /\
  ~ contains answer_open (extract_xml_answer text) /\
  ~ contains answer_close (extract_xml_answer text).
Proof.
  unfold extract_xml_answer, extract_xml_answer_try, index_last, index.
  destruct (last (split answer_open text)) as [tail|] eqn:Hl;
    [|apply last_None in Hl; by apply split_nonempty in Hl].
  cbn [rbind]. destruct (split answer_close tail !! 0) as [piece|] eqn:Hp;
    [|apply lookup_ge_None in Hp; pose proof (split_nonempty answer_close tail);
      destruct (split answer_close tail); [done | simpl in Hp; lia]].
  cbn [rbind]. split; [apply strip_strip|]. split; apply strip_clean.
  - intros Hc. rewrite last_lookup in Hl.
    pose proof (split_pieces_clean answer_open text) as Hall.
    rewrite Forall_lookup in Hall. apply (Hall ltac:(discriminate) _ _ Hl).
    apply split_head_prefix in Hp as [b ->].
    by apply (contains_within _ _ [] b) in Hc.
  - pose proof (split_pieces_clean answer_close tail) as Hall.
    rewrite Forall_lookup in Hall. exact (Hall ltac:(discriminate) _ _ Hp).
Qed.

(** X2: a ground truth [extract_hash_answer] returns has no whitespace
    left at either end and no ["####"] in it. *)
Theorem extract_hash_answer_clean (text b : str) :
  extract_hash_answer text = Some b ->
  strip b = b /\ ~ contains hash_sep b.
Proof.
  unfold extract_hash_answer, extract_hash_answer_try, index.
  destruct (split hash_sep text !! 1) as [piece|] eqn:Hp; [|discriminate].
  cbn [rbind]. intros [= <-]. split; [apply strip_strip|]. apply strip_clean.
  pose proof (split_pieces_clean hash_sep text) as Hall.
  rewrite Forall_lookup in Hall. exact (Hall ltac:(discriminate) _ _ Hp).
Qed.

Lemma extract_hash_answer_clean_witness :
  extract_hash_answer (lit "6*3=18 ####  18 #### x") = Some (lit "18") /\
  strip (lit "18") = lit "18" /\ ~ contains hash_sep (lit "18").
Proof.
  assert (H : extract_hash_answer (lit "6*3=18 ####  18 #### x") = Some (lit "18"))
    by (vm_compute; reflexivity).
  split; [exact H|]. exact (extract_hash_answer_clean _ _ H).
Defined.

Lemma hash_sep_lookup (k : nat) (c : char) : hash_sep !! k = Some c -> c = 35%N.
Proof. do 4 (destruct k as [|k]; [by intros [= <-]|]). discriminate. Qed.

(** X3: a solution followed by ["####"] and the answer gives the answer
    back, stripped, when the solution has no ["####"] and does not end in
    ["#"], and the answer has no ["####"]. *)
Theorem extract_hash_answer_round_trip (solution ans : str) :
  ~ contains hash_sep solution ->
  last solution <> Some 35%N ->
  ~ contains hash_sep ans ->
  extract_hash_answer (solution ++ hash_sep ++ ans) = Some (strip ans).
Proof.
  intros Hs Hlast Ha.
  assert (Hf : find hash_sep (solution ++ hash_sep ++ ans) = Some (length solution)).
  { apply find_Some. split; [by exists solution, ans|].
    intros j (a & b & Heq & <-).
    destruct (Nat.le_gt_cases (length solution) (length a)) as [|Hlt]; [done|].
    exfalso. symmetry in Heq.
    destruct (Nat.le_gt_cases (length a + length hash_sep) (length solution)).
    { apply Hs. by eapply contains_left. }
    apply Hlast. rewrite last_lookup.
    assert (Hk : (a ++ hash_sep ++ b) !! pred (length solution)
                 = hash_sep !! (pred (length solution) - length a)).
    { rewrite lookup_app_r by lia. apply lookup_app_l. lia. }
    rewrite Heq, lookup_app_l in Hk by lia. rewrite Hk.
    destruct (hash_sep !! (pred (length solution) - length a)) as [c|] eqn:Hc.
    - by apply hash_sep_lookup in Hc as ->.
    - apply lookup_ge_None in Hc. lia. }
  unfold extract_hash_answer, extract_hash_answer_try, index.
  rewrite split_unfold, Hf by discriminate.
  rewrite drop_app_add, drop_app_length, (split_without _ _ Ha). reflexivity.
Qed.

Lemma extract_hash_answer_round_trip_witness :
  ~ contains hash_sep (lit "6*3=18 ") /\ last (lit "6*3=18 ") <> Some 35%N /\
  ~ contains hash_sep (lit " 18") /\
  extract_hash_answer (lit "6*3=18 " ++ hash_sep ++ lit " 18") = Some (strip (lit " 18")).
Proof.
  assert (H1 : ~ contains hash_sep (lit "6*3=18 "))
    by (apply find_None; vm_compute; reflexivity).
  assert (H2 : last (lit "6*3=18 ") <> Some 35%N) by (vm_compute; discriminate).
  assert (H3 : ~ contains hash_sep (lit " 18"))
    by (apply find_None; vm_compute; reflexivity).
  split; [exact H1|]. split; [exact H2|]. split; [exact H3|].
  exact (extract_hash_answer_round_trip _ _ H1 H2 H3).
Defined.

(** ** Preprocessing and the rewards together *)

Lemma process_batch_answer_lookup (batch : Batch.t) (i : nat) (a : str) :
  Batch.answer batch !! i = Some a ->
  Processed.answer (process_batch batch) !! i = Some (extract_hash_answer a).
Proof.
  intros H. cbn [process_batch Processed.answer].
  change (map extract_hash_answer (Batch.answer batch))
    with (extract_hash_answer <$> Batch.answer batch).
  by rewrite list_lookup_fmap, H.
Qed.

(** X4: in every prompt [process_batch] builds, the last message is
    the user's question with no whitespace left at either end, and the
    assistant turn shown before it is a completion that
    [format_reward_func] scores 1.0 and that yields the answer ["4"]. *)
Theorem process_batch_prompts {E} (batch : Batch.t) (w : world E) :
  length (Processed.prompt (process_batch batch)) = length (Batch.question batch) /\
  forall i q,
    Batch.question batch !! i = Some q ->
    exists sys shot turn ask,
      Processed.prompt (process_batch batch) !! i = Some [sys; shot; turn; ask] /\
      role sys = lit "system" /\ role shot = lit "user" /\
      role turn = lit "assistant" /\ role ask = lit "user" /\
      content ask = strip q /\ strip (content ask) = content ask /\
      format_reward_func [[turn]] w = (Ok [1%float], w) /\
      extract_xml_answer (content turn) = lit "4".
Proof.
  cbn [process_batch Processed.prompt]. split; [apply length_map|].
  intros i q Hq.
  match goal with |- context [map ?f _] =>
    change (map f (Batch.question batch)) with (f <$> Batch.question batch) end.
  rewrite list_lookup_fmap, Hq. cbn [fmap option_fmap option_map].
  eexists _, _, _, _. split; [reflexivity|]. cbn [role content].
  do 5 (split; [reflexivity|]). split; [apply strip_strip|].
  split; [|vm_compute; reflexivity].
  rewrite format_reward_func_eq. cbn [map_result first_content index rbind lookup list_lookup content].
  cbn [map]. unfold format_score. by vm_compute (matches pattern example_turn).
Qed.

Lemma process_batch_prompts_witness :
  exists sys shot turn ask,
    Processed.prompt
      (process_batch {| Batch.question := [lit " What is 6*3? "];
                        Batch.answer := [lit "6*3=18 #### 18"] |}) !! 0
    = Some [sys; shot; turn; ask] /\
    role sys = lit "system" /\ role shot = lit "user" /\
    role turn = lit "assistant" /\ role ask = lit "user" /\
    content ask = strip (lit " What is 6*3? ") /\ strip (content ask) = content ask /\
    format_reward_func [[turn]] example_world = (Ok [1%float], example_world) /\
    extract_xml_answer (content turn) = lit "4".
Proof.
  exact (proj2 (process_batch_prompts
                  {| Batch.question := [lit " What is 6*3? "];
                     Batch.answer := [lit "6*3=18 #### 18"] |} example_world)
           0 (lit " What is 6*3? ") eq_refl).
Defined.

Lemma extract_hash_answer_without (text : str) :
  ~ contains hash_sep text -> extract_hash_answer text = None.
Proof.
  intros H. unfold extract_hash_answer, extract_hash_answer_try.
  by rewrite (split_without _ _ H).
Qed.

(** X5: a dataset answer without ["####"] becomes the ground truth
    [None], and against it no completion ever scores 2.0: the reward at
    that index, when there is one, is 0.0. *)
Theorem no_marker_never_rewarded {E} (batch : Batch.t) (i : nat) (a : str)
    prompts completions (w : world E) rewards w' x :
  Batch.answer batch !! i = Some a ->
  ~ contains hash_sep a ->
  correctness_reward_func prompts completions
    (Processed.answer (process_batch batch)) w = (Ok rewards, w') ->
  rewards !! i = Some x ->
  Processed.answer (process_batch batch) !! i = Some None /\ x = 0%float.
Proof.
  intros Ha Hno Hrun Hx.
  assert (Hnone : Processed.answer (process_batch batch) !! i = Some None).
  { rewrite (process_batch_answer_lookup _ _ _ Ha). f_equal.
    by apply extract_hash_answer_without. }
  split; [exact Hnone|].
  apply correctness_reward_func_Ok in Hrun as (responses & _ & ->).
  rewrite lookup_zip_with, Hnone in Hx.
  destruct (responses !! i) as [r|]; [|discriminate]. by injection Hx as <-.
Qed.

Lemma no_marker_never_rewarded_witness :
  Batch.answer {| Batch.question := [lit "What is 2+2?"];
                  Batch.answer := [lit "the answer is 4"] |} !! 0
  = Some (lit "the answer is 4") /\
  ~ contains hash_sep (lit "the answer is 4") /\
  (correctness_reward_func [[user (lit "What is 2+2?")]]
     [[assistant (lit "<answer>4</answer>")]]
     (Processed.answer
        (process_batch {| Batch.question := [lit "What is 2+2?"];
                          Batch.answer := [lit "the answer is 4"] |}))
     example_world).1 = Ok [0%float] /\
  [0%float] !! 0 = Some 0%float /\
  0%float = 0%float.
Proof.
  assert (Hno : ~ contains hash_sep (lit "the answer is 4"))
    by (apply find_None; vm_compute; reflexivity).
  split; [reflexivity|]. split; [exact Hno|].
  split; [vm_compute; reflexivity|]. split; [reflexivity|].
  set (b := {| Batch.question := [lit "What is 2+2?"];
               Batch.answer := [lit "the answer is 4"] |}).
  exact (proj2 (no_marker_never_rewarded b 0 (lit "the answer is 4")
                  [[user (lit "What is 2+2?")]] [[assistant (lit "<answer>4</answer>")]]
                  example_world [0%float]
                  (correctness_reward_func [[user (lit "What is 2+2?")]]
                     [[assistant (lit "<answer>4</answer>")]]
                     (Processed.answer (process_batch b)) example_world).2
                  0%float eq_refl Hno ltac:(vm_compute; reflexivity) eq_refl)).
Defined.

(** X6: on what [process_batch] makes of a batch with at least one
    question and one answer, [correctness_reward_func] never raises when
    given completions that each have a first message: every prompt has a
    last message for its report to show.  It returns one reward per
    completion, up to the number of answers. *)
Theorem correctness_reward_func_on_processed {E} (batch : Batch.t)
    completions (w : world E) :
  Batch.question batch <> [] -> Batch.answer batch <> [] ->
  completions <> [] -> Forall (fun completion => completion <> []) completions ->
  exists rewards w',
    correctness_reward_func (Processed.prompt (process_batch batch)) completions
      (Processed.answer (process_batch batch)) w = (Ok rewards, w') /\
    length rewards = length completions `min` length (Batch.answer batch).
Proof.
  intros Hq Ha Hc Hall.
  assert (Hrep : reportable (Processed.prompt (process_batch batch)) completions
                   (Processed.answer (process_batch batch))).
  { split; [exact Hall|]. split; [|split; [exact Hc|]].
    - cbn [process_batch Processed.prompt].
      destruct (Batch.question batch) as [|q qs]; [done|].
      eexists. split; [reflexivity | discriminate].
    - cbn [process_batch Processed.answer].
      destruct (Batch.answer batch); [done | discriminate]. }
  apply correctness_outcome_total in Hrep as (l & rewards & Hout).
  exists rewards, (print l w).2. split.
  - by rewrite correctness_reward_func_eq, Hout.
  - apply correctness_outcome_Ok in Hout as (responses & Hr & ->).
    apply responses_lookup in Hr as [Hlen _].
    rewrite length_zip_with, Hlen. cbn [process_batch Processed.answer].
    by rewrite length_map.
Qed.

Lemma correctness_reward_func_on_processed_witness :
  exists rewards w',
    correctness_reward_func
      (Processed.prompt
         (process_batch {| Batch.question := [lit " What is 6*3? "];
                           Batch.answer := [lit "6*3=18 #### 18"] |}))
      [[assistant (lit "<answer>18</answer>")]]
      (Processed.answer
         (process_batch {| Batch.question := [lit " What is 6*3? "];
                           Batch.answer := [lit "6*3=18 #### 18"] |}))
      example_world = (Ok rewards, w') /\
    length rewards = 1 `min` 1.
Proof.
  apply (correctness_reward_func_on_processed
           {| Batch.question := [lit " What is 6*3? "];
              Batch.answer := [lit "6*3=18 #### 18"] |}
           [[assistant (lit "<answer>18</answer>")]] example_world);
    [discriminate | discriminate | discriminate | repeat constructor; discriminate].
Defined.

(** ** What [correctness_reward_func] prints *)

Lemma marks_agree (responses : list str) (answer : list (option str)) (i : nat) :
  let marks := map (fun ra : str * option str =>
                      if py_eq ra.1 ra.2 then lit "Y" else lit "N")
                   (zip (map extract_xml_answer responses) answer) in
  let rewards := zip_with correctness_score responses answer in
  length marks = length rewards /\
  (marks !! i = Some (lit "Y") <-> rewards !! i = Some 2%float) /\
  (marks !! i = Some (lit "N") <-> rewards !! i = Some 0%float).
Proof.
  cbn zeta. split.
  - by rewrite length_map, !length_zip_with, length_map.
  - match goal with |- context [map ?f (zip ?l answer)] =>
      change (map f (zip l answer)) with (f <$> zip_with pair l answer) end.
    rewrite list_lookup_fmap, !lookup_zip_with.
    change (map extract_xml_answer responses) with (extract_xml_answer <$> responses).
    rewrite list_lookup_fmap.
    destruct (responses !! i) as [r|]; [|by split; split]. simpl.
    destruct (answer !! i) as [a|]; [|by split; split]. simpl.
    unfold correctness_score.
    destruct (py_eq (extract_xml_answer r) a); split; split;
      first [done | discriminate
            | intros [= H]; first [by apply float_2_ne_0 in H
                                  | symmetry in H; by apply float_2_ne_0 in H]].
Qed.

(** X7: a call of [correctness_reward_func] that returns has printed
    one report and changed nothing else.  The report shows the last
    message of the first prompt, the first ground truth, the first
    completion and the answer extracted from it, and one mark per reward:
    ["Y"] exactly where the reward is 2.0, ["N"] exactly where it is 0.0. *)
Theorem correctness_report_agrees {E} prompts completions answer
    (w : world E) rewards w' :
  correctness_reward_func prompts completions answer w = (Ok rewards, w') ->
  exists p m a0 c m0 marks,
    prompts !! 0 = Some p /\ last p = Some m /\ answer !! 0 = Some a0 /\
    completions !! 0 = Some c /\ c !! 0 = Some m0 /\
    w' = (print [Txt (report (content m) a0 (length completions) (content m0)
                        (extract_xml_answer (content m0)) marks)] w).2 /\
    length marks = length rewards /\
    forall i,
      (marks !! i = Some (lit "Y") <-> rewards !! i = Some 2%float) /\
      (marks !! i = Some (lit "N") <-> rewards !! i = Some 0%float).
Proof.
  rewrite correctness_reward_func_eq.
  destruct (correctness_outcome prompts completions answer) as [[l rs]|] eqn:Hout;
    [|discriminate].
  intros [= -> <-]. pose proof Hout as Hout'. revert Hout'.
  apply correctness_outcome_Ok in Hout as (responses & Hr & ->).
  unfold correctness_outcome, index, index_last. rewrite Hr. cbn [rbind].
  destruct (prompts !! 0) as [p|] eqn:Hp; [|discriminate]. cbn [rbind].
  destruct (last p) as [m|] eqn:Hm; [|discriminate]. cbn [rbind].
  destruct (answer !! 0) as [a0|] eqn:Ha0; [|discriminate]. cbn [rbind].
  destruct (responses !! 0) as [r0|] eqn:Hr0; [|discriminate]. cbn [rbind].
  change (map extract_xml_answer responses) with (extract_xml_answer <$> responses).
  rewrite list_lookup_fmap, Hr0. cbn [fmap option_fmap option_map rbind].
  intros [= <- _].
  apply map_result_Ok in Hr.
  destruct (Forall2_lookup_r _ _ _ _ _ Hr Hr0) as (c & Hc & (m0 & Hm0 & ->)%first_content_Ok).
  eexists p, m, a0, c, m0, _. do 5 (split; [reflexivity || assumption|]).
  split; [reflexivity|].
  split; [apply (marks_agree responses answer 0)|].
  intros i. apply (marks_agree responses answer i).
Qed.

Lemma correctness_report_agrees_witness :
  exists p m a0 c m0 marks,
    example_prompts !! 0 = Some p /\ last p = Some m /\
    example_answer !! 0 = Some a0 /\
    example_completions !! 0 = Some c /\ c !! 0 = Some m0 /\
    (correctness_reward_func example_prompts example_completions example_answer
       example_world).2
    = (print [Txt (report (content m) a0 (length example_completions) (content m0)
                     (extract_xml_answer (content m0)) marks)] example_world).2 /\
    length marks = length [2%float; 0%float] /\
    forall i,
      (marks !! i = Some (lit "Y") <-> [2%float; 0%float] !! i = Some 2%float) /\
      (marks !! i = Some (lit "N") <-> [2%float; 0%float] !! i = Some 0%float).
Proof.
  exact (correctness_report_agrees example_prompts example_completions example_answer
           example_world [2%float; 0%float]
           (correctness_reward_func example_prompts example_completions example_answer
              example_world).2
           ltac:(vm_compute; reflexivity)).
Defined.

(** ** A well-formed completion with the right answer *)

Lemma extract_xml_answer_between (prefix A suffix : str) :
  ~ contains answer_open A -> ~ contains answer_close A ->
  ~ contains answer_open suffix ->
  extract_xml_answer (prefix ++ answer_open ++ A ++ answer_close ++ suffix)
  = strip A.
Proof.
  intros HAo HAc Hs.
  unfold extract_xml_answer, extract_xml_answer_try, index_last, index.
  rewrite (split_last_headed lt_sign);
    [|apply headed_answer_open | by apply answer_open_not_across].
  cbn [rbind]. rewrite (split_head_headed lt_sign);
    [reflexivity | apply headed_answer_close | assumption].
Qed.

(** X8: a completion of the tagged form, alone or followed by one
    newline, whose texts hold no newline and no tag of their own kind,
    earns both rewards in full when its answer text, stripped, is the
    ground truth: 1.0 from [format_reward_func] and 2.0 from
    [correctness_reward_func]. *)
Theorem full_marks {E} prompts completions answer (w : world E)
    format_rewards w1 correctness_rewards w2 i completion m R A tail :
  format_reward_func completions w = (Ok format_rewards, w1) ->
  correctness_reward_func prompts completions answer w
    = (Ok correctness_rewards, w2) ->
  completions !! i = Some completion -> completion !! 0 = Some m ->
  content m = tagged R A ++ tail -> tail = [] \/ tail = nl ->
  newline ∉ R -> newline ∉ A ->
  ~ contains reasoning_close R ->
  ~ contains answer_open A -> ~ contains answer_close A ->
  answer !! i = Some (Some (strip A)) ->
  format_rewards !! i = Some 1%float /\ correctness_rewards !! i = Some 2%float.
Proof.
  intros (responses & Hr & -> & _)%format_reward_func_Ok
         (responses' & Hr' & ->)%correctness_reward_func_Ok
         Hi Hm Hc Htail HRn HAn HRc HAo HAc Ha.
  rewrite Hr in Hr'. injection Hr' as <-.
  apply responses_lookup in Hr as [_ Hr]. specialize (Hr i completion m Hi Hm).
  split.
  - rewrite (format_scores_lookup _ _ _ Hr). f_equal. apply format_score_1.
    exists R, A. repeat (split; [assumption|]). rewrite Hc.
    destruct Htail as [-> | ->]; [left; by rewrite app_nil_r | by right].
  - rewrite lookup_zip_with, Hr, Ha. cbn. f_equal. apply correctness_score_2.
    f_equal. rewrite Hc. unfold tagged.
    replace ((reasoning_open ++ R ++ reasoning_close ++ nl ++ answer_open
              ++ A ++ answer_close) ++ tail)
      with ((reasoning_open ++ R ++ reasoning_close ++ nl) ++ answer_open
            ++ A ++ answer_close ++ tail)
      by (by rewrite <- !app_assoc).
    symmetry. apply extract_xml_answer_between; [assumption | assumption|].
    destruct Htail as [-> | ->]; apply find_None; reflexivity.
Qed.

Lemma full_marks_witness :
  format_reward_func example_completions example_world
    = (Ok [1%float; 0%float], example_world) /\
  (correctness_reward_func example_prompts example_completions example_answer
     example_world).1 = Ok [2%float; 0%float] /\
  [1%float; 0%float] !! 0 = Some 1%float /\ [2%float; 0%float] !! 0 = Some 2%float.
Proof.
  assert (H1 : format_reward_func example_completions example_world
               = (Ok [1%float; 0%float], example_world)) by (vm_compute; reflexivity).
  split; [exact H1|]. split; [vm_compute; reflexivity|].
  refine (full_marks example_prompts example_completions example_answer example_world
            _ _ _
            (correctness_reward_func example_prompts example_completions example_answer
               example_world).2
            0 _ (assistant (tagged (lit "2+2 is 4") (lit "4"))) (lit "2+2 is 4") (lit "4") []
            H1 ltac:(vm_compute; reflexivity) eq_refl eq_refl _ (or_introl eq_refl)
            _ _ _ _ _ eq_refl).
  - cbn [content assistant]. by rewrite app_nil_r.
  - compute_done.
  - compute_done.
  - apply find_None. vm_compute. reflexivity.
  - apply find_None. vm_compute. reflexivity.
  - apply find_None. vm_compute. reflexivity.
Defined.

(** ** The callback over a training step *)

Section StepProperties.

Context {E args value : Type}.
Implicit Types (w : world E) (a : args).
Local Abbreviation method := (@method E args value).

Lemma step_end_eq (targs : TrainingArguments) (state : TrainerState) w :
  on_step_end targs state w =
  if (gradient_accumulation_steps targs =? 0)%Z then (Raise ZeroDivisionError, w)
  else if (global_step state mod gradient_accumulation_steps targs =? 0)%Z then
    (Ok tt,
     {| ext := ext w;
        callback := {| generation_start_time := generation_start_time (callback w);
                       backprop_start_time := backprop_start_time (callback w);
                       step_count := step_count (callback w) + 1 |};
        stdout :=
          match backprop_start_time (callback w) with
          | Some t0 =>
              stdout w
              ++ [backprop_line (global_step state) (clock w (reads w) - t0)%float]
          | None => stdout w
          end;
        clock := clock w;
        reads :=
          match backprop_start_time (callback w) with
          | Some _ => S (reads w)
          | None => reads w
          end |})
  else (Ok tt, w).
Proof.
  unfold on_step_end, bind, lift, py_mod.
  destruct (gradient_accumulation_steps targs =? 0)%Z; [reflexivity|].
  destruct (global_step state mod gradient_accumulation_steps targs =? 0)%Z;
    [|reflexivity].
  unfold get_callback. cbv beta iota.
  destruct (backprop_start_time (callback w)) as [t0|] eqn:Ht; cbv beta iota.
  - unfold time_time, print, set_step_count, set_callback, backprop_line.
    cbn [callback backprop_start_time generation_start_time step_count ext stdout
         clock reads]. by rewrite Ht.
  - unfold ret, set_step_count, set_callback.
    cbn [callback backprop_start_time generation_start_time step_count ext stdout
         clock reads]. by rewrite Ht.
Qed.

(** X9: with [gradient_accumulation_steps] equal to 0 both callbacks
    raise [ZeroDivisionError] and leave the world as it was.  Otherwise
    both return, and both act on the same steps, those the accumulation
    count divides: on the others neither changes anything. *)
Theorem callbacks_fire_together (targs : TrainingArguments) (state : TrainerState) w :
  (gradient_accumulation_steps targs = 0%Z ->
   on_step_begin targs state w = (Raise ZeroDivisionError, w) /\
   on_step_end targs state w = (Raise ZeroDivisionError, w)) /\
  (gradient_accumulation_steps targs <> 0%Z ->
   (on_step_begin targs state w).1 = Ok tt /\
   (on_step_end targs state w).1 = Ok tt /\
   (~ (gradient_accumulation_steps targs | global_step state)%Z ->
    on_step_begin targs state w = (Ok tt, w) /\
    on_step_end targs state w = (Ok tt, w)) /\
   ((gradient_accumulation_steps targs | global_step state)%Z ->
    generation_start_time (callback (on_step_begin targs state w).2)
      = Some (clock w (reads w)) /\
    step_count (callback (on_step_end targs state w).2)
      = (step_count (callback w) + 1)%Z)).
Proof.
  rewrite on_step_begin_eq, step_end_eq. split.
  - intros ->. by rewrite Z.eqb_refl.
  - intros Hne. apply Z.eqb_neq in Hne as Hb. rewrite Hb.
    destruct (global_step state mod gradient_accumulation_steps targs =? 0)%Z eqn:Hm.
    + apply Z.eqb_eq, Z.mod_divide in Hm; [|assumption].
      split; [reflexivity|]. split; [reflexivity|]. split; [done|].
      intros _. split; reflexivity.
    + apply Z.eqb_neq in Hm.
      split; [reflexivity|]. split; [reflexivity|]. split; [done|].
      intros Hd. apply Z.mod_divide in Hd; [done | assumption].
Qed.

(** X10: [on_step_end] never clears [backprop_start_time].  Two steps
    that close a cycle, with no generation in between, both report a
    backpropagation time, and both measure it from the same start. *)
Theorem on_step_end_keeps_start (targs : TrainingArguments)
    (s1 s2 : TrainerState) w (t0 : float) :
  gradient_accumulation_steps targs <> 0%Z ->
  (global_step s1 mod gradient_accumulation_steps targs = 0)%Z ->
  (global_step s2 mod gradient_accumulation_steps targs = 0)%Z ->
  backprop_start_time (callback w) = Some t0 ->
  let r1 := on_step_end targs s1 w in
  let r2 := on_step_end targs s2 r1.2 in
  r1.1 = Ok tt /\ r2.1 = Ok tt /\
  backprop_start_time (callback r2.2) = Some t0 /\
  generation_start_time (callback r2.2) = generation_start_time (callback w) /\
  step_count (callback r2.2) = (step_count (callback w) + 2)%Z /\
  stdout r2.2 =
    stdout w
    ++ [backprop_line (global_step s1) (clock w (reads w) - t0)%float;
        backprop_line (global_step s2) (clock w (S (reads w)) - t0)%float].
Proof.
  intros Hne%Z.eqb_neq H1%Z.eqb_eq H2%Z.eqb_eq Ht. cbn zeta.
  rewrite (step_end_eq targs s1), Hne, H1. cbn [fst snd].
  rewrite (step_end_eq targs s2), Hne, H2. cbn [fst snd callback backprop_start_time
    generation_start_time step_count stdout clock reads].
  rewrite Ht. repeat split; try done.
  - lia.
  - by rewrite <- app_assoc.
Qed.


(** X12: wrapping [_generate_and_score_completions] twice measures
    once: the inner wrapper clears the timestamp, so the outer one finds
    nothing pending, and the doubly wrapped method does exactly what the
    singly wrapped one does. *)
Theorem wrapped_generate_and_score_twice (original_generate : method) a w :
  wrapped_generate_and_score (wrapped_generate_and_score original_generate) a w
  = wrapped_generate_and_score original_generate a w.
Proof.
  rewrite (wrapped_generate_and_score_eq (wrapped_generate_and_score original_generate)).
  rewrite wrapped_generate_and_score_eq.
  destruct (original_generate a w) as [[result|e] w1]; [|reflexivity].
  destruct (generation_start_time (callback w1)) as [t0|] eqn:Ht.
  - reflexivity.
  - by rewrite Ht.
Qed.

(** X13: nothing in the instrumentation clears [backprop_start_time].
    Once it holds a reading it still holds one after [on_step_begin],
    after [on_step_end], and after the wrapped generation whenever the
    original generation has left one in place. *)
Theorem backprop_start_time_stays (targs : TrainingArguments)
    (state : TrainerState) (original_generate : method) a w :
  (is_Some (backprop_start_time (callback w)) ->
   is_Some (backprop_start_time (callback (on_step_begin targs state w).2)) /\
   is_Some (backprop_start_time (callback (on_step_end targs state w).2))) /\
  (is_Some (backprop_start_time (callback (original_generate a w).2)) ->
   is_Some (backprop_start_time
              (callback (wrapped_generate_and_score original_generate a w).2))).
Proof.
  split.
  - intros H. rewrite on_step_begin_eq, step_end_eq.
    destruct (gradient_accumulation_steps targs =? 0)%Z; [done|].
    by destruct (global_step state mod gradient_accumulation_steps targs =? 0)%Z.
  - rewrite wrapped_generate_and_score_eq.
    destruct (original_generate a w) as [[result|e] w1]; [|done].
    destruct (generation_start_time (callback w1)); [|done].
    intros _. by eexists.
Qed.

End StepProperties.

Lemma callbacks_fire_together_witness :
  (4 | 8)%Z /\
  generation_start_time
    (callback (on_step_begin {| gradient_accumulation_steps := 4 |}
                 {| global_step := 8 |} example_world).2)
  = Some (clock example_world (reads example_world)) /\
  step_count
    (callback (on_step_end {| gradient_accumulation_steps := 4 |}
                 {| global_step := 8 |} example_world).2)
  = (step_count (callback example_world) + 1)%Z.
Proof.
  assert (Hd : (4 | 8)%Z) by (exists 2%Z; reflexivity).
  split; [exact Hd|].
  exact (proj2 (proj2 (proj2 (proj2
           (callbacks_fire_together {| gradient_accumulation_steps := 4 |}
              {| global_step := 8 |} example_world)
           ltac:(discriminate)))) Hd).
Defined.

Lemma on_step_end_keeps_start_witness :
  let targs := {| gradient_accumulation_steps := 4 |} in
  let w := (wrapped_generate_and_score echo 7 begun_world).2 in
  gradient_accumulation_steps targs <> 0%Z /\
  backprop_start_time (callback w) = Some 101%float /\
  stdout (on_step_end targs {| global_step := 12 |}
            (on_step_end targs {| global_step := 8 |} w).2).2
  = stdout w ++ [backprop_line 8 0.5%float; backprop_line 12 1%float].
Proof.
  cbn zeta. split; [discriminate|]. split; [vm_compute; reflexivity|].
  pose proof (on_step_end_keeps_start {| gradient_accumulation_steps := 4 |}
                {| global_step := 8 |} {| global_step := 12 |}
                (wrapped_generate_and_score echo 7 begun_world).2 101%float
                ltac:(discriminate) eq_refl eq_refl ltac:(vm_compute; reflexivity))
    as (_ & _ & _ & _ & _ & H).
  rewrite H. vm_compute. reflexivity.
Defined.


Lemma backprop_start_time_stays_witness :
  let w := (wrapped_generate_and_score echo 7 begun_world).2 in
  is_Some (backprop_start_time (callback w)) /\
  is_Some (backprop_start_time
             (callback (on_step_end {| gradient_accumulation_steps := 4 |}
                          {| global_step := 8 |} w).2)).
Proof.
  cbn zeta.
  assert (H : is_Some (backprop_start_time
                         (callback (wrapped_generate_and_score echo 7 begun_world).2)))
    by (by eexists).
  split; [exact H|].
  exact (proj2 (proj1 (backprop_start_time_stays {| gradient_accumulation_steps := 4 |}
                         {| global_step := 8 |} echo 7
                         (wrapped_generate_and_score echo 7 begun_world).2) H)).
Defined.

(** ** Edge cases of the rewards *)

(** X14: an answer block that is never closed still counts: when
    nothing but text follows the last ["<answer>"], all of it, stripped,
    is the extracted answer. *)
Theorem extract_xml_answer_unclosed (prefix rest : str) :
  ~ contains answer_open rest -> ~ contains answer_close rest ->
  extract_xml_answer (prefix ++ answer_open ++ rest) = strip rest.
Proof.
  intros Ho Hc. unfold extract_xml_answer, extract_xml_answer_try, index_last.
  rewrite (split_last_headed lt_sign); [|apply headed_answer_open | assumption].
  cbn [rbind]. by rewrite (split_without _ _ Hc).
Qed.

Lemma extract_xml_answer_unclosed_witness :
  ~ contains answer_open (lit " 18 and so") /\
  ~ contains answer_close (lit " 18 and so") /\
  extract_xml_answer (lit "<reasoning>6*3</reasoning>" ++ answer_open ++ lit " 18 and so")
  = strip (lit " 18 and so").
Proof.
  assert (H1 : ~ contains answer_open (lit " 18 and so"))
    by (apply find_None; vm_compute; reflexivity).
  assert (H2 : ~ contains answer_close (lit " 18 and so"))
    by (apply find_None; vm_compute; reflexivity).
  split; [exact H1|]. split; [exact H2|].
  exact (extract_xml_answer_unclosed (lit "<reasoning>6*3</reasoning>") _ H1 H2).
Defined.

(** X15: [format_reward_func] returns a list exactly when every
    completion has a first message; when one has none it raises
    [IndexError].  Either way it prints nothing and leaves the world as
    it was. *)
Theorem format_reward_func_raises {E} completions (w : world E) :
  (Forall (fun completion => completion <> []) completions <->
   exists rewards, format_reward_func completions w = (Ok rewards, w)) /\
  (~ Forall (fun completion => completion <> []) completions ->
   format_reward_func completions w = (Raise IndexError, w)) /\
  (format_reward_func completions w).2 = w.
Proof.
  rewrite format_reward_func_eq.
  destruct (map_result first_content completions) as [responses|e] eqn:Hr.
  - assert (Hall : Forall (fun completion : list message => completion <> []) completions).
    { apply map_result_Ok in Hr. eapply Forall2_Forall_l; [exact Hr|].
      apply Forall_forall. intros r _ c (m & Hm & _)%first_content_Ok ->. discriminate. }
    split; [split; eauto|]. split; [done | reflexivity].
  - apply map_result_Raise in Hr as (c & Hc & [-> ->]%first_content_Raise).
    assert (Hno : ~ Forall (fun completion : list message => completion <> []) completions).
    { intros Hall. rewrite Forall_forall in Hall. by apply (Hall [] Hc). }
    split; [split; [done | by intros [? [=]]]|]. split; [done | reflexivity].
Qed.

Lemma format_reward_func_raises_witness :
  ~ Forall (fun completion : list message => completion <> [])
      [[assistant (lit "<answer>4</answer>")]; []] /\
  format_reward_func [[assistant (lit "<answer>4</answer>")]; []] example_world
  = (Raise IndexError, example_world).
Proof.
  assert (H : ~ Forall (fun completion : list message => completion <> [])
                  [[assistant (lit "<answer>4</answer>")]; []]).
  { intros Hall. rewrite Forall_forall in Hall.
    apply (Hall []); [|reflexivity]. apply elem_of_cons. right. apply elem_of_cons. by left. }
  split; [exact H|].
  exact (proj1 (proj2 (format_reward_func_raises _ example_world)) H).
Defined.
